(** * SocketTransport: a shallow embedding of
      src/internals/station/websockets/SocketTransport.ts

    The transport object is a record holding the private fields of the
    class.  The part of the JavaScript runtime the class talks to is kept in
    the same record: the heap of WebSocket objects the class has constructed
    (addressed by creation index, so that two references to one socket alias),
    the number of outstanding [setTimeout(this._socketCreate, 500)] timers,
    the frames handed to [socket.send] and the listener invocations.

    Every handler of the class runs to completion on the single JavaScript
    thread, so a handler is a function from state to state, and the run of
    the program is a sequence of events (calls of the public methods, socket
    events, timer expiry, the network monitor's signal). *)

From Stdlib Require Import ZArith Lia Ascii String.
From stdpp Require Import base list strings.

Local Open Scope string_scope.

(** ** JavaScript values that reach the transport

    The TypeScript signatures say [topic: string] and [silent?: boolean], but
    [send] inspects its argument at run time with [!topic] and [typeof], so
    the argument is modelled as an untyped value: a primitive, or an object
    (an array, a plain object), known by its identity.  These are the values
    [JSON.stringify] prints; the others are [Unprintable] below. *)

Inductive JSValue : Type :=
  | JSUndefined
  | JSNull
  | JSBoolean (b : bool)
  | JSNumber (n : Z)
  | JSString (s : string)
  | JSObject (o : nat).

(** What a caller can pass where the signature says [string]: a value
    [JSON.stringify] prints, or one on which it throws a TypeError (a BigInt,
    an object that contains one or that contains itself). *)
Inductive JSArgument : Type :=
  | Printable (v : JSValue)
  | Unprintable.

(** [!!v] *)
Definition truthy (v : JSValue) : bool :=
  match v with
  | JSUndefined | JSNull => false
  | JSBoolean b => b
  | JSNumber n => negb (n =? 0)%Z
  | JSString s => negb (String.eqb s "")
  | JSObject _ => true
  end.

(** [typeof v] *)
Definition typeof (v : JSValue) : string :=
  match v with
  | JSUndefined => "undefined"
  | JSNull => "object"
  | JSBoolean _ => "boolean"
  | JSNumber _ => "number"
  | JSString _ => "string"
  | JSObject _ => "object"
  end.

(** ** Data model *)

(** [ISocketMessage]: the envelope.  [topic] keeps whatever value the caller
    passed, since [subscribe] forwards it unchecked. *)
Record ISocketMessage : Type := {
  topic : JSValue;
  type : string;
  payload : string;
  silent : bool
}.

(** [ITransportEvent]: a registration.  A callback is known by its identity;
    calling it is recorded in [delivered]. *)
Record ITransportEvent : Type := {
  event : string;
  callback : nat
}.

(** What [JSON.parse] returns when it returns: [null], of which no property
    can be read, or any other value, typed as the source types it
    ([let socketMessage: ISocketMessage]).  The transport reads [topic] and
    nothing else; a value without that property (a number, a string, an
    array) has [topic := JSUndefined]. *)
Inductive Parsed : Type :=
  | ParsedNull
  | ParsedMessage (socketMessage : ISocketMessage).

(** What a listener is called with: the parsed envelope ("message") or the
    socket's error event ("error"). *)
Inductive Payload : Type :=
  | MessagePayload (m : ISocketMessage)
  | ErrorPayload (e : string).

(** The [onclose] property of a socket: the retry closure installed by
    [_socketCreate], or the empty closure installed by [_socketClose]. *)
Inductive CloseHandler : Type :=
  | RetryOnClose
  | NoopOnClose.

Module WebSocket.

Definition CONNECTING : Z := 0.
Definition OPEN : Z := 1.
Definition CLOSING : Z := 2.
Definition CLOSED : Z := 3.

(** A WebSocket object.  [onmessage], [onopen] and [onerror] are assigned
    once, by [_socketCreate], and are the same for every socket; only
    [onclose] is ever reassigned. *)
Record t : Type := {
  url : string;
  readyState : Z;
  onclose : CloseHandler
}.

(** [new WebSocket(url)], with the handlers [_socketCreate] assigns. *)
Definition create (u : string) : t :=
  {| url := u; readyState := CONNECTING; onclose := RetryOnClose |}.

Definition set_readyState (r : Z) (s : t) : t :=
  {| url := url s; readyState := r; onclose := onclose s |}.

Definition set_onclose (h : CloseHandler) (s : t) : t :=
  {| url := url s; readyState := readyState s; onclose := h |}.

(** [socket.close()]: nothing on a socket already closing or closed,
    otherwise the closing handshake starts.  The close event comes later,
    as an event of its own. *)
Definition close (s : t) : t :=
  if (readyState s =? CLOSING)%Z || (readyState s =? CLOSED)%Z
  then s
  else set_readyState CLOSING s.

End WebSocket.

(** The transport and the runtime objects it owns. *)
Record SocketTransport : Type := {
  (* fields of the class *)
  _protocol : string;
  _version : Z;
  _url : string;
  opts_subscriptions : option (list string);   (* this.opts.subscriptions *)
  _socket : option nat;
  _nextSocket : option nat;
  _queue : list ISocketMessage;
  _events : list ITransportEvent;
  _subscriptions : list string;
  (* runtime *)
  sockets : list WebSocket.t;            (* every socket constructed so far *)
  timers : nat;                          (* pending setTimeout(_socketCreate) *)
  transmitted : list (nat * string);     (* socket.send(message), in order *)
  delivered : list (nat * Payload)       (* callback(payload), in order *)
}.

Definition set_socket (v : option nat) (st : SocketTransport) :=
  {| _protocol := _protocol st; _version := _version st; _url := _url st;
     opts_subscriptions := opts_subscriptions st;
     _socket := v; _nextSocket := _nextSocket st;
     _queue := _queue st; _events := _events st;
     _subscriptions := _subscriptions st;
     sockets := sockets st; timers := timers st;
     transmitted := transmitted st; delivered := delivered st |}.

Definition set_nextSocket (v : option nat) (st : SocketTransport) :=
  {| _protocol := _protocol st; _version := _version st; _url := _url st;
     opts_subscriptions := opts_subscriptions st;
     _socket := _socket st; _nextSocket := v;
     _queue := _queue st; _events := _events st;
     _subscriptions := _subscriptions st;
     sockets := sockets st; timers := timers st;
     transmitted := transmitted st; delivered := delivered st |}.

Definition set_queue (v : list ISocketMessage) (st : SocketTransport) :=
  {| _protocol := _protocol st; _version := _version st; _url := _url st;
     opts_subscriptions := opts_subscriptions st;
     _socket := _socket st; _nextSocket := _nextSocket st;
     _queue := v; _events := _events st;
     _subscriptions := _subscriptions st;
     sockets := sockets st; timers := timers st;
     transmitted := transmitted st; delivered := delivered st |}.

Definition set_events (v : list ITransportEvent) (st : SocketTransport) :=
  {| _protocol := _protocol st; _version := _version st; _url := _url st;
     opts_subscriptions := opts_subscriptions st;
     _socket := _socket st; _nextSocket := _nextSocket st;
     _queue := _queue st; _events := v;
     _subscriptions := _subscriptions st;
     sockets := sockets st; timers := timers st;
     transmitted := transmitted st; delivered := delivered st |}.

Definition set_subscriptions (v : list string) (st : SocketTransport) :=
  {| _protocol := _protocol st; _version := _version st; _url := _url st;
     opts_subscriptions := opts_subscriptions st;
     _socket := _socket st; _nextSocket := _nextSocket st;
     _queue := _queue st; _events := _events st;
     _subscriptions := v;
     sockets := sockets st; timers := timers st;
     transmitted := transmitted st; delivered := delivered st |}.

Definition set_sockets (v : list WebSocket.t) (st : SocketTransport) :=
  {| _protocol := _protocol st; _version := _version st; _url := _url st;
     opts_subscriptions := opts_subscriptions st;
     _socket := _socket st; _nextSocket := _nextSocket st;
     _queue := _queue st; _events := _events st;
     _subscriptions := _subscriptions st;
     sockets := v; timers := timers st;
     transmitted := transmitted st; delivered := delivered st |}.

Definition set_timers (v : nat) (st : SocketTransport) :=
  {| _protocol := _protocol st; _version := _version st; _url := _url st;
     opts_subscriptions := opts_subscriptions st;
     _socket := _socket st; _nextSocket := _nextSocket st;
     _queue := _queue st; _events := _events st;
     _subscriptions := _subscriptions st;
     sockets := sockets st; timers := v;
     transmitted := transmitted st; delivered := delivered st |}.

Definition set_transmitted (v : list (nat * string)) (st : SocketTransport) :=
  {| _protocol := _protocol st; _version := _version st; _url := _url st;
     opts_subscriptions := opts_subscriptions st;
     _socket := _socket st; _nextSocket := _nextSocket st;
     _queue := _queue st; _events := _events st;
     _subscriptions := _subscriptions st;
     sockets := sockets st; timers := timers st;
     transmitted := v; delivered := delivered st |}.

Definition set_delivered (v : list (nat * Payload)) (st : SocketTransport) :=
  {| _protocol := _protocol st; _version := _version st; _url := _url st;
     opts_subscriptions := opts_subscriptions st;
     _socket := _socket st; _nextSocket := _nextSocket st;
     _queue := _queue st; _events := _events st;
     _subscriptions := _subscriptions st;
     sockets := sockets st; timers := timers st;
     transmitted := transmitted st; delivered := v |}.

(** ** What the class imports

    [JSON.stringify] and [JSON.parse] on envelopes, and the query-string
    helpers of @walletconnect/utils, are not part of the file; the
    development is parametric in them.  For [JSON_parse], [None] is the
    [catch] branch: the text is not JSON.  [JSON_stringify] is applied to
    envelopes whose topic is a [JSValue], which it prints.

    [new WebSocket(url)] is taken to return a socket throughout: a url the
    constructor rejects makes every method that dials throw, whatever its
    arguments, and is not modelled. *)
Class Platform : Type := {
  JSON_stringify : ISocketMessage -> string;
  JSON_parse : string -> option Parsed;
  (** [appendToQueryString(getQueryString(q), params)], with [params] built
      from [protocol], [version] and the detected environment. *)
  appendParams : string -> string -> Z -> string
}.

(** [s.split(sep)] for a one-character separator. *)
Fixpoint split (sep : ascii) (s : string) : list string :=
  match s with
  | EmptyString => [EmptyString]
  | String c r =>
      if Ascii.eqb c sep then EmptyString :: split sep r
      else match split sep r with
           | h :: t => String c h :: t
           | [] => [String c EmptyString]
           end
  end.

Inductive Completion : Type :=
  | Normal
  | Throw (message : string).

Inductive Construction : Type :=
  | Constructed (st : SocketTransport)
  | ConstructionThrows (message : string).

(** [ISocketTransportOptions].  The network monitor is not a field here:
    its "online" signal is the event [NetOnline] below. *)
Record ISocketTransportOptions : Type := {
  protocol : string;
  version : Z;
  url : JSValue;
  subscriptions : option (list string)
}.

Section Transport.

Context `{Platform}.

(** *** getWebSocketUrl (lines 249-270) *)
Definition getWebSocketUrl (webUrl protocol : string) (version : Z) : string :=
  let url :=
    if String.prefix "https" webUrl
    then "wss" ++ String.substring 5 (String.length webUrl - 5) webUrl
    else if String.prefix "http" webUrl
    then "ws" ++ String.substring 4 (String.length webUrl - 4) webUrl
    else webUrl in
  let splitUrl := split "?"%char url in
  default "" (splitUrl !! 0) ++ "?"
    ++ appendParams (default "" (splitUrl !! 1)) protocol version.

(** *** constructor (lines 28-45) *)
Definition constructor (opts : ISocketTransportOptions) : Construction :=
  if negb (truthy (url opts)) || negb (String.eqb (typeof (url opts)) "string")
  then ConstructionThrows "Missing or invalid WebSocket url"
  else
    match url opts with
    | JSString u =>
        Constructed
          {| _protocol := protocol opts; _version := version opts;
             _url := u;
             opts_subscriptions := subscriptions opts;
             _socket := None; _nextSocket := None;
             _queue := []; _events := [];
             _subscriptions := default [] (subscriptions opts);
             sockets := []; timers := 0;
             transmitted := []; delivered := [] |}
    | _ => ConstructionThrows "Missing or invalid WebSocket url"
    end.

(** *** getters (lines 53-95) *)
Definition readyState (st : SocketTransport) : Z :=
  match _socket st with
  | Some a =>
      match sockets st !! a with
      | Some s => WebSocket.readyState s
      | None => -1
      end
  | None => -1
  end.

Definition connecting (st : SocketTransport) : bool := (readyState st =? 0)%Z.
Definition connected (st : SocketTransport) : bool := (readyState st =? 1)%Z.
Definition closing (st : SocketTransport) : bool := (readyState st =? 2)%Z.
Definition closed (st : SocketTransport) : bool := (readyState st =? 3)%Z.

(** *** _socketCreate (lines 135-160)

    [new] yields an object when it returns, so the guard of line 144 does
    not fire; that it returns is the assumption stated with [Platform]. *)
Definition _socketCreate (st : SocketTransport) : SocketTransport :=
  match _nextSocket st with
  | Some _ => st
  | None =>
      let url := getWebSocketUrl (_url st) (_protocol st) (_version st) in
      set_nextSocket (Some (length (sockets st)))
        (set_sockets (sockets st ++ [WebSocket.create url]) st)
  end.

(** *** _socketClose (lines 170-177) *)
Definition _socketClose (st : SocketTransport) : SocketTransport :=
  match _socket st with
  | Some a =>
      set_sockets
        (alter (fun s => WebSocket.close (WebSocket.set_onclose NoopOnClose s))
               a (sockets st)) st
  | None => st
  end.

(** *** _setToQueue (lines 236-238) *)
Definition _setToQueue (socketMessage : ISocketMessage) (st : SocketTransport)
  : SocketTransport :=
  set_queue (_queue st ++ [socketMessage]) st.

(** [this._socket.send(message)] *)
Definition socket_send (message : string) (st : SocketTransport)
  : SocketTransport :=
  match _socket st with
  | Some a => set_transmitted (transmitted st ++ [(a, message)]) st
  | None => st
  end.

(** *** _socketSend (lines 179-188).  The test of line 182 is the one of
    the [connected] getter. *)
Definition _socketSend (socketMessage : ISocketMessage) (st : SocketTransport)
  : SocketTransport :=
  let message := JSON_stringify socketMessage in
  if connected st
  then socket_send message st
  else _socketCreate (_setToQueue socketMessage st).

(** *** _queueSubscriptions (lines 221-234) *)
Definition subscribeMessage (t : JSValue) : ISocketMessage :=
  {| topic := t; type := "sub"; payload := ""; silent := true |}.

Definition _queueSubscriptions (st : SocketTransport) : SocketTransport :=
  let subscriptions := _subscriptions st in
  let st1 :=
    foldl (fun s t => set_queue (_queue s ++ [subscribeMessage (JSString t)]) s)
          st subscriptions in
  set_subscriptions (default [] (opts_subscriptions st1)) st1.

(** *** _pushQueue (lines 240-246)

    [queue] is the array [this._queue] itself, not a copy.  [forEach]
    fixes its range before the first call, so it visits the envelopes that
    were queued when it started; what [_socketSend] pushes meanwhile lands
    in that same array, behind the range.  The assignment of line 245 then
    replaces the array, whatever it holds by now. *)
Definition _pushQueue (st : SocketTransport) : SocketTransport :=
  let queue := _queue st in
  let st1 := foldl (fun s socketMessage => _socketSend socketMessage s) st queue in
  set_queue [] st1.

(** *** _socketOpen (lines 162-168) *)
Definition _socketOpen (st : SocketTransport) : SocketTransport :=
  let st1 := _socketClose st in
  let st2 := set_socket (_nextSocket st1) st1 in
  let st3 := set_nextSocket None st2 in
  let st4 := _queueSubscriptions st3 in
  _pushQueue st4.

(** [events.forEach(e => e.callback(payload))] over the registrations
    named [name]. *)
Definition dispatch (name : string) (p : Payload) (st : SocketTransport)
  : SocketTransport :=
  let events :=
    List.filter (fun itemEvent => String.eqb (event itemEvent) name) (_events st) in
  set_delivered
    (delivered st ++ map (fun itemEvent => (callback itemEvent, p)) events) st.

(** *** _socketReceive (lines 190-212).  The function has no [await]: its
    body runs at once.  It is [async]: what it throws rejects the promise it
    returns, which nobody handles; [Throw] records that.  Reading [topic] of
    [null] (line 200) throws before [_socketSend] is called. *)
Definition acknowledgeMessage (t : JSValue) : ISocketMessage :=
  {| topic := t; type := "ack"; payload := ""; silent := true |}.

Definition _socketReceive (data : string) (st : SocketTransport)
  : Completion * SocketTransport :=
  match JSON_parse data with
  | None => (Normal, st)
  | Some ParsedNull =>
      (Throw "TypeError: Cannot read properties of null (reading 'topic')", st)
  | Some (ParsedMessage socketMessage) =>
      let st1 := _socketSend (acknowledgeMessage (topic socketMessage)) st in
      (Normal,
       if connected st1
       then dispatch "message" (MessagePayload socketMessage) st1
       else st1)
  end.

(** *** _socketError (lines 214-219) *)
Definition _socketError (e : string) (st : SocketTransport) : SocketTransport :=
  dispatch "error" (ErrorPayload e) st.

(** *** public methods (lines 99-131) *)
Definition open (st : SocketTransport) : SocketTransport := _socketCreate st.

Definition close (st : SocketTransport) : SocketTransport := _socketClose st.

Definition publishMessage (message : string) (t : JSValue) (s : JSValue)
  : ISocketMessage :=
  {| topic := t; type := "pub"; payload := message; silent := truthy s |}.

Definition send (message : string) (topic silent : JSValue) (st : SocketTransport)
  : Completion * SocketTransport :=
  if negb (truthy topic) || negb (String.eqb (typeof topic) "string")
  then (Throw "Missing or invalid topic field", st)
  else (Normal, _socketSend (publishMessage message topic silent) st).

(** [subscribe] has no check of its own.  The first thing [_socketSend] does
    with the envelope is to print it (line 180): for a topic that cannot be
    printed the TypeError of [JSON.stringify] leaves through [subscribe]
    before anything is changed. *)
Definition subscribe (topic : JSArgument) (st : SocketTransport)
  : Completion * SocketTransport :=
  match topic with
  | Printable t => (Normal, _socketSend (subscribeMessage t) st)
  | Unprintable =>
      (Throw "TypeError: Do not know how to serialize a BigInt", st)
  end.

Definition on (event : string) (callback : nat) (st : SocketTransport)
  : SocketTransport :=
  set_events (_events st ++ [{| event := event; callback := callback |}]) st.

End Transport.

(** ** Events of a run

    What can happen to a transport: a call of a public method, the network
    monitor's "online" signal (line 44), the expiry of a retry timer
    (line 158), or an event of one of the sockets it has constructed.  A
    socket opens once, from CONNECTING; it is closed at most once; message
    events are delivered while it is OPEN and, since the handler stays
    installed and some runtimes deliver what arrives before the closing
    handshake ends, while it is CLOSING.  A call of [subscribe] with a topic
    that cannot be printed throws before anything is changed and is not an
    event of a run. *)
Inductive Event : Type :=
  | CallOpen
  | CallClose
  | CallSend (message : string) (topic silent : JSValue)
  | CallSubscribe (topic : JSValue)
  | CallOn (name : string) (callback : nat)
  | NetOnline
  | TimerFired
  | SocketOpened (i : nat)
  | SocketClosed (i : nat)
  | SocketMessage (i : nat) (data : string)
  | SocketError (i : nat) (e : string).

Section Run.

Context `{Platform}.

(** The closure of lines 156-159, or the empty one of lines 172-174. *)
Definition run_onclose (h : CloseHandler) (st : SocketTransport)
  : SocketTransport :=
  match h with
  | RetryOnClose => set_timers (S (timers st)) (set_nextSocket None st)
  | NoopOnClose => st
  end.

(** One event; [None] when the event cannot occur in [st]. *)
Definition step (ev : Event) (st : SocketTransport) : option SocketTransport :=
  match ev with
  | CallOpen => Some (open st)
  | CallClose => Some (close st)
  | CallSend message topic silent => Some (snd (send message topic silent st))
  | CallSubscribe topic => Some (snd (subscribe (Printable topic) st))
  | CallOn name callback => Some (on name callback st)
  | NetOnline => Some (_socketCreate st)
  | TimerFired =>
      match timers st with
      | S n => Some (_socketCreate (set_timers n st))
      | O => None
      end
  | SocketOpened i =>
      match sockets st !! i with
      | Some s =>
          if (WebSocket.readyState s =? WebSocket.CONNECTING)%Z
          then Some (_socketOpen
                       (set_sockets
                          (<[i := WebSocket.set_readyState WebSocket.OPEN s]>
                             (sockets st)) st))
          else None
      | None => None
      end
  | SocketClosed i =>
      match sockets st !! i with
      | Some s =>
          if (WebSocket.readyState s =? WebSocket.CLOSED)%Z
          then None
          else Some (run_onclose (WebSocket.onclose s)
                       (set_sockets
                          (<[i := WebSocket.set_readyState WebSocket.CLOSED s]>
                             (sockets st)) st))
      | None => None
      end
  | SocketMessage i data =>
      match sockets st !! i with
      | Some s =>
          if (WebSocket.readyState s =? WebSocket.OPEN)%Z
             || (WebSocket.readyState s =? WebSocket.CLOSING)%Z
          then Some (snd (_socketReceive data st))
          else None
      | None => None
      end
  | SocketError i e =>
      match sockets st !! i with
      | Some s =>
          if (WebSocket.readyState s =? WebSocket.CLOSED)%Z
          then None
          else Some (_socketError e st)
      | None => None
      end
  end.

Fixpoint run (evs : list Event) (st : SocketTransport) : option SocketTransport :=
  match evs with
  | [] => Some st
  | ev :: evs' =>
      match step ev st with
      | Some st' => run evs' st'
      | None => None
      end
  end.

(** Events by which nobody asks for a connection and nothing is routed:
    everything but [open], [send], [subscribe], the network monitor's
    signal and an inbound message, whose handlers reach [_socketCreate]
    themselves (the message's through the acknowledgement it routes). *)
Definition is_passive_event (ev : Event) : bool :=
  match ev with
  | CallOpen | CallSend _ _ _ | CallSubscribe _ | NetOnline
  | SocketMessage _ _ => false
  | CallClose | CallOn _ _ | TimerFired | SocketOpened _ | SocketClosed _
  | SocketError _ _ => true
  end.

(** Connection attempts still in flight: the sockets in CONNECTING state
    other than the active one. *)
Definition pending_attempts (st : SocketTransport) : list nat :=
  List.filter
    (fun i => match sockets st !! i with
              | Some s =>
                  (WebSocket.readyState s =? WebSocket.CONNECTING)%Z
                  && match _socket st with
                     | Some a => negb (Nat.eqb a i)
                     | None => true
                     end
              | None => false
              end)
    (seq 0 (length (sockets st))).

(** *** Notions used in the statements *)

(** The active connection exists and is open. *)
Definition active_open (st : SocketTransport) (a : nat) : Prop :=
  _socket st = Some a /\
  exists s, sockets st !! a = Some s /\
            WebSocket.readyState s = WebSocket.OPEN.

(** The subscription list the transport was configured with. *)
Definition configured (st : SocketTransport) : list string :=
  default [] (opts_subscriptions st).

(** Connection attempts started or scheduled so far: every [new WebSocket]
    and every timer still to fire.  A timer that fires turns one into the
    other (or into nothing); only a call of [setTimeout] or a call of
    [_socketCreate] from elsewhere makes the number grow. *)
Definition attempts (st : SocketTransport) : nat :=
  length (sockets st) + timers st.

(** From [st] on, no passive event starts or schedules a connection
    attempt. *)
Definition retry_stopped (st : SocketTransport) : Prop :=
  forall (evs : list Event) (st' : SocketTransport),
    forallb is_passive_event evs = true ->
    run evs st = Some st' ->
    attempts st' <= attempts st.

(** A socket from which no more retry can come: it is closed, or it is
    closing with the empty close handler. *)
Definition settled (s : WebSocket.t) : Prop :=
  WebSocket.readyState s = WebSocket.CLOSED \/
  (WebSocket.readyState s = WebSocket.CLOSING /\
   WebSocket.onclose s = NoopOnClose).

(** The live subscription list is the configured one, [o] being
    [this.opts.subscriptions]. *)
Definition replays_configured (o : option (list string)) (st : SocketTransport)
  : Prop :=
  opts_subscriptions st = o /\ _subscriptions st = default [] o.

(** References point into the heap, and the pending slot holds a socket
    that is still connecting, carries the retry handler and is not the
    active one. *)
Definition well_formed (st : SocketTransport) : Prop :=
  (forall a, _socket st = Some a -> a < length (sockets st)) /\
  (forall p, _nextSocket st = Some p ->
     _socket st <> Some p /\
     exists s, sockets st !! p = Some s /\
       WebSocket.readyState s = WebSocket.CONNECTING /\
       WebSocket.onclose s = RetryOnClose).

(** Nothing is pending, nothing is scheduled, and every socket is settled. *)
Definition quiet (st : SocketTransport) : Prop :=
  _nextSocket st = None /\ timers st = 0 /\
  forall i s, sockets st !! i = Some s -> settled s.

Definition at_most_one_pending (st : SocketTransport) : Prop :=
  length (pending_attempts st) <= 1.

(** The registrations made by the [on] calls of a run, in call order. *)
Definition registrations (evs : list Event) : list ITransportEvent :=
  flat_map
    (fun ev => match ev with
               | CallOn name callback =>
                   [{| event := name; callback := callback |}]
               | _ => []
               end)
    evs.


(** The invocation [d] is accounted for by [regs]: its callback is
    registered under the name its payload is dispatched under. *)
Definition delivery_registered (regs : list ITransportEvent) (d : nat * Payload)
  : Prop :=
  In {| event := match snd d with
                 | MessagePayload _ => "message"
                 | ErrorPayload _ => "error"
                 end;
        callback := fst d |} regs.

(** Every socket constructed so far satisfies [P], and so will the next
    one [_socketCreate] constructs. *)
Definition sockets_satisfy (P : WebSocket.t -> Prop) (st : SocketTransport)
  : Prop :=
  P (WebSocket.create (getWebSocketUrl (_url st) (_protocol st) (_version st)))
  /\ Forall P (sockets st).

Definition is_open_event (ev : Event) : bool :=
  match ev with
  | SocketOpened _ => true
  | _ => false
  end.

Definition is_request (ev : Event) : bool :=
  match ev with
  | CallSend _ _ _ | CallSubscribe _ => true
  | _ => false
  end.

(** The envelope a call of [send] or [subscribe] routes; none when [send]
    throws. *)
Definition requested (ev : Event) : list ISocketMessage :=
  match ev with
  | CallSend message t sl =>
      if negb (truthy t) || negb (String.eqb (typeof t) "string")
      then []
      else [publishMessage message t sl]
  | CallSubscribe t => [subscribeMessage t]
  | _ => []
  end.

(** [n] connection attempts failing in a row, the first of them on socket
    [k]: the socket is closed before it opens, then the retry timer fires. *)
Definition failures (k n : nat) : list Event :=
  flat_map (fun i => [SocketClosed i; TimerFired]) (seq k n).

(** The character [c] occurs in [s]. *)
Fixpoint occurs (c : ascii) (s : string) : bool :=
  match s with
  | EmptyString => false
  | String c' r => Ascii.eqb c' c || occurs c r
  end.

End Run.

(** ** A concrete platform for running scenarios

    Envelopes are printed field by field; the parser recognises nothing but
    the three fixed texts below.  No general statement depends on it. *)
Module Scenario.

Definition show_value (v : JSValue) : string :=
  match v with
  | JSString s => s
  | _ => "undefined"
  end.

Definition platform : Platform := {|
  JSON_stringify m :=
    type m ++ ":" ++ show_value (topic m) ++ ":" ++ payload m ++ ":"
      ++ (if silent m then "silent" else "loud");
  JSON_parse data :=
    if String.eqb data "pub:a:hello"
    then Some (ParsedMessage {| topic := JSString "a"; type := "pub";
                                payload := "hello"; silent := false |})
    else if String.eqb data "pub:b:quiet"
    then Some (ParsedMessage {| topic := JSString "b"; type := "pub";
                                payload := "quiet"; silent := true |})
    else if String.eqb data "null"
    then Some ParsedNull
    else None;
  appendParams q protocol version := q ++ "protocol=" ++ protocol
|}.

Definition opts : ISocketTransportOptions :=
  {| protocol := "wc"; version := 1; url := JSString "https://relay.example";
     subscriptions := Some ["a"; "b"] |}.

Definition fresh : SocketTransport :=
  match constructor opts with
  | Constructed st => st
  | ConstructionThrows _ =>
      {| _protocol := ""; _version := 0; _url := ""; opts_subscriptions := None;
         _socket := None; _nextSocket := None; _queue := []; _events := [];
         _subscriptions := []; sockets := []; timers := 0;
         transmitted := []; delivered := [] |}
  end.

Definition state_after (evs : list Event) : SocketTransport :=
  default fresh (@run platform evs fresh).

(** A transport with an open active connection and nothing pending. *)
Definition online : SocketTransport :=
  state_after [CallOpen; SocketOpened 0].

(** A transport whose first connection attempt is still in flight. *)
Definition dialling : SocketTransport :=
  state_after [CallOpen].

(** Socket 0 is active and open, and the network monitor's signal has
    started socket 1. *)
Definition redialling : SocketTransport :=
  state_after [CallOpen; SocketOpened 0; NetOnline].

(** As above, then socket 0 is closed by the network and the caller
    publishes "x" on topic "t" while nothing is open. *)
Definition dropped : list Event :=
  [CallOpen; SocketOpened 0; NetOnline; SocketClosed 0;
   CallSend "x" (JSString "t") JSUndefined].


(** Calls made before the first socket has opened; the last one throws. *)
Definition early_requests : list Event :=
  [CallSend "x" (JSString "a") JSUndefined; CallSubscribe (JSString "c");
   CallSend "y" JSUndefined JSUndefined].

Definition hello : ISocketMessage :=
  {| topic := JSString "a"; type := "pub"; payload := "hello"; silent := false |}.

End Scenario.

(** * Properties *)

Local Open Scope list_scope.

(** ** Effects of the private methods *)
Section Effects.

Context `{Platform}.

Lemma foldl_invariant {A : Type} (P : SocketTransport -> Prop)
    (f : SocketTransport -> A -> SocketTransport) (l : list A) :
  (forall s x, P s -> P (f s x)) ->
  forall st, P st -> P (foldl f st l).
Proof.
  intros Hf. induction l as [|x l IH]; intros st Hst; simpl.
  - exact Hst.
  - apply IH, Hf, Hst.
Qed.

(** [_socketCreate] does nothing while the pending slot is taken. *)
Lemma _socketCreate_pending (st : SocketTransport) (p : nat) :
  _nextSocket st = Some p -> _socketCreate st = st.
Proof. intros Hp. unfold _socketCreate. now rewrite Hp. Qed.

Lemma _socketCreate_fresh (st : SocketTransport) :
  _nextSocket st = None ->
  _socketCreate st =
    set_nextSocket (Some (length (sockets st)))
      (set_sockets
         (sockets st
            ++ [WebSocket.create
                  (getWebSocketUrl (_url st) (_protocol st) (_version st))])
         st).
Proof. intros Hp. unfold _socketCreate. now rewrite Hp. Qed.

(** A socket that has just been constructed is not open, so constructing
    one does not change what [connected] answers. *)
Lemma connected_socketCreate (st : SocketTransport) :
  connected (_socketCreate st) = connected st.
Proof.
  unfold _socketCreate. destruct (_nextSocket st) as [p|]; [reflexivity|].
  unfold connected, readyState; simpl.
  destruct (_socket st) as [a|]; [|reflexivity].
  destruct (decide (a < length (sockets st))) as [Hlt|Hge].
  - now rewrite lookup_app_l.
  - rewrite lookup_app_r by lia.
    rewrite (lookup_ge_None_2 (sockets st) a) by lia.
    destruct (a - length (sockets st)) as [|k]; reflexivity.
Qed.

Lemma _socketSend_connected (m : ISocketMessage) (st : SocketTransport) :
  connected st = true ->
  exists a, _socket st = Some a /\
    _socketSend m st =
      set_transmitted (transmitted st ++ [(a, JSON_stringify m)]) st.
Proof.
  intros Hc. unfold _socketSend. rewrite Hc. unfold socket_send.
  unfold connected, readyState in Hc.
  destruct (_socket st) as [a|]; [|discriminate].
  now exists a.
Qed.

Lemma _socketSend_disconnected (m : ISocketMessage) (st : SocketTransport) :
  connected st = false ->
  _socketSend m st = _socketCreate (_setToQueue m st).
Proof. intros Hc. unfold _socketSend. now rewrite Hc. Qed.

(** The loop of [_pushQueue] on an open connection: every envelope goes
    out on the active socket, in order, and nothing else changes. *)
Lemma forEach_socketSend_connected (l : list ISocketMessage) :
  forall (st : SocketTransport) (a : nat),
    connected st = true -> _socket st = Some a ->
    foldl (fun s m => _socketSend m s) st l =
      set_transmitted
        (transmitted st ++ map (fun m => (a, JSON_stringify m)) l) st.
Proof.
  induction l as [|m l IH]; intros st a Hc Ha; simpl.
  - rewrite app_nil_r. now destruct st.
  - destruct (_socketSend_connected m st Hc) as (a' & Ha' & ->).
    assert (a' = a) as -> by congruence.
    rewrite (IH _ a) by (exact Hc || exact Ha).
    destruct st; simpl. now rewrite <- app_assoc.
Qed.

(** The same loop without an open connection: nothing goes out, every
    envelope is pushed again behind the ones already there. *)
Lemma forEach_socketSend_disconnected (l : list ISocketMessage) :
  forall st : SocketTransport,
    connected st = false ->
    let st' := foldl (fun s m => _socketSend m s) st l in
    connected st' = false /\ transmitted st' = transmitted st /\
    _queue st' = _queue st ++ l /\ _socket st' = _socket st /\
    timers st' = timers st.
Proof.
  induction l as [|m l IH]; intros st Hc; simpl.
  - now rewrite app_nil_r.
  - rewrite (_socketSend_disconnected m st Hc).
    assert (Hc1 : connected (_socketCreate (_setToQueue m st)) = false)
      by now rewrite connected_socketCreate.
    destruct (IH _ Hc1) as (H1 & H2 & H3 & H4 & H5).
    repeat split; [exact H1|rewrite H2|rewrite H3|rewrite H4|rewrite H5];
      unfold _socketCreate, _setToQueue;
      destruct (_nextSocket (set_queue (_queue st ++ [m]) st));
      simpl; try reflexivity; now rewrite <- app_assoc.
Qed.

Lemma forEach_subscriptions (l : list string) :
  forall st : SocketTransport,
    foldl (fun s t => set_queue (_queue s ++ [subscribeMessage (JSString t)]) s)
          st l =
      set_queue
        (_queue st ++ map (fun t => subscribeMessage (JSString t)) l) st.
Proof.
  induction l as [|t l IH]; intros st; simpl.
  - rewrite app_nil_r. now destruct st.
  - rewrite IH. destruct st; simpl. now rewrite <- app_assoc.
Qed.

Lemma _queueSubscriptions_spec (st : SocketTransport) :
  _queueSubscriptions st =
    set_subscriptions (default [] (opts_subscriptions st))
      (set_queue
         (_queue st
            ++ map (fun t => subscribeMessage (JSString t)) (_subscriptions st))
         st).
Proof. unfold _queueSubscriptions. now rewrite forEach_subscriptions. Qed.

Lemma _pushQueue_connected (st : SocketTransport) (a : nat) :
  connected st = true -> _socket st = Some a ->
  _pushQueue st =
    set_queue []
      (set_transmitted
         (transmitted st ++ map (fun m => (a, JSON_stringify m)) (_queue st))
         st).
Proof.
  intros Hc Ha. unfold _pushQueue.
  now rewrite (forEach_socketSend_connected _ st a Hc Ha).
Qed.

(** Without an open connection the drain transmits nothing and still
    ends with line 245: the envelopes it pushed back are gone. *)
Lemma _pushQueue_disconnected (st : SocketTransport) :
  connected st = false ->
  transmitted (_pushQueue st) = transmitted st /\ _queue (_pushQueue st) = [].
Proof.
  intros Hc. unfold _pushQueue.
  destruct (forEach_socketSend_disconnected (_queue st) st Hc) as (_ & H2 & _).
  split; [exact H2|reflexivity].
Qed.

Lemma connected_active_open (st : SocketTransport) :
  connected st = true <-> exists a, active_open st a.
Proof.
  unfold connected, readyState, active_open. split.
  - intros Hc. destruct (_socket st) as [a|]; [|discriminate].
    exists a. split; [reflexivity|].
    destruct (sockets st !! a) as [s|]; [|discriminate].
    exists s. split; [reflexivity|]. unfold WebSocket.OPEN. lia.
  - intros (a & -> & s & -> & ->). reflexivity.
Qed.

Lemma disconnected_active_open (st : SocketTransport) :
  connected st = false <-> forall a, ~ active_open st a.
Proof.
  split.
  - intros Hc a Ha.
    assert (connected st = true) by (apply connected_active_open; eauto).
    congruence.
  - intros Hn. destruct (connected st) eqn:Hc; [|reflexivity].
    apply connected_active_open in Hc as (a & Ha). now destruct (Hn a).
Qed.

End Effects.

(** ** The public protocol: send, subscribe, receive, constructor *)
Section Protocol.

Context `{Platform}.

Lemma _socketSend_routes (m : ISocketMessage) (st : SocketTransport) :
  (forall a, active_open st a ->
     _socketSend m st =
       set_transmitted (transmitted st ++ [(a, JSON_stringify m)]) st /\
     _queue (_socketSend m st) = _queue st)
  /\
  ((forall a, ~ active_open st a) ->
     _socketSend m st = _socketCreate (_setToQueue m st) /\
     _queue (_socketSend m st) = _queue st ++ [m] /\
     transmitted (_socketSend m st) = transmitted st).
Proof.
  split.
  - intros a Ha.
    assert (Hc : connected st = true) by (apply connected_active_open; eauto).
    destruct (_socketSend_connected m st Hc) as (a' & Ha' & ->).
    destruct Ha as [Ha _]. replace a' with a by congruence.
    split; reflexivity.
  - intros Hn. apply disconnected_active_open in Hn.
    rewrite (_socketSend_disconnected m st Hn).
    split; [reflexivity|].
    unfold _socketCreate, _setToQueue.
    destruct (_nextSocket (set_queue (_queue st ++ [m]) st)); split; reflexivity.
Qed.


(** C7 — transmit-or-queue.  When the active connection exists and is
    open, [_socketSend] hands the serialized envelope to that socket and
    changes nothing else, the queue included.  Otherwise it appends the
    envelope to the queue, transmits nothing, and calls [_socketCreate]. *)
Theorem transmit_or_queue (m : ISocketMessage) (st : SocketTransport) :
  (forall a, active_open st a ->
     _socketSend m st =
       set_transmitted (transmitted st ++ [(a, JSON_stringify m)]) st /\
     _queue (_socketSend m st) = _queue st)
  /\
  ((forall a, ~ active_open st a) ->
     _socketSend m st = _socketCreate (_setToQueue m st) /\
     _queue (_socketSend m st) = _queue st ++ [m] /\
     transmitted (_socketSend m st) = transmitted st /\
     (_nextSocket st = None ->
        _nextSocket (_socketSend m st) = Some (length (sockets st)) /\
        length (sockets (_socketSend m st)) = S (length (sockets st))) /\
     (forall p, _nextSocket st = Some p ->
        _nextSocket (_socketSend m st) = Some p /\
        sockets (_socketSend m st) = sockets st)).
Proof.
  destruct (_socketSend_routes m st) as [Ho Hq].
  split; [exact Ho|].
  intros Hn. destruct (Hq Hn) as (E & Hqueue & Htx).
  split; [exact E|]. split; [exact Hqueue|]. split; [exact Htx|].
  rewrite E. unfold _socketCreate, _setToQueue; simpl.
  split.
  - intros ->; simpl. split; [reflexivity|].
    rewrite length_app; simpl. lia.
  - intros p Hp. rewrite Hp; simpl. now split.
Qed.

Lemma dispatch_frame (name : string) (p : Payload) (st : SocketTransport) :
  transmitted (dispatch name p st) = transmitted st /\
  _queue (dispatch name p st) = _queue st /\
  sockets (dispatch name p st) = sockets st /\
  timers (dispatch name p st) = timers st /\
  _nextSocket (dispatch name p st) = _nextSocket st /\
  _socket (dispatch name p st) = _socket st.
Proof. repeat split. Qed.


(** X18 — the acknowledgement.  Data that parses to a value other than
    null yields exactly one acknowledge envelope for that value's topic,
    empty payload, silent: transmitted when the active connection is open,
    queued otherwise, and this whatever the value's payload and silent flag
    are.  Data that does not parse leaves the transport as it was: no
    acknowledge envelope, no listener called. *)
Theorem receive_acknowledges_parsed_value
    (data : string) (st : SocketTransport) :
  (forall m, JSON_parse data = Some (ParsedMessage m) ->
     let ack := {| topic := topic m; type := "ack"; payload := ""; silent := true |} in
     let st' := snd (_socketReceive data st) in
     fst (_socketReceive data st) = Normal /\
     ((exists a, active_open st a /\
         transmitted st' = transmitted st ++ [(a, JSON_stringify ack)] /\
         _queue st' = _queue st)
      \/
      ((forall a, ~ active_open st a) /\
         transmitted st' = transmitted st /\
         _queue st' = _queue st ++ [ack])))
  /\
  (JSON_parse data = None -> _socketReceive data st = (Normal, st)).
Proof.
  split.
  - intros m Hm ack st'. subst st'. unfold _socketReceive. rewrite Hm. simpl.
    split; [reflexivity|].
    fold (acknowledgeMessage (topic m)). fold ack.
    set (st1 := _socketSend (acknowledgeMessage (topic m)) st).
    assert (Hd : transmitted (if connected st1
                              then dispatch "message" (MessagePayload m) st1
                              else st1) = transmitted st1 /\
                 _queue (if connected st1
                         then dispatch "message" (MessagePayload m) st1
                         else st1) = _queue st1)
      by (destruct (connected st1); split; reflexivity).
    destruct Hd as [-> ->]. subst st1.
    destruct (_socketSend_routes (acknowledgeMessage (topic m)) st) as [Ho Hq].
    destruct (connected st) eqn:Hc.
    + apply connected_active_open in Hc as (a & Ha).
      left. exists a. destruct (Ho a Ha) as [-> _]. now split.
    + pose proof (proj1 (disconnected_active_open st) Hc) as Hn.
      right. destruct (Hq Hn) as (_ & -> & ->). now split.
  - intros Hn. unfold _socketReceive. now rewrite Hn.
Qed.

(** C8 — send.  A topic that is not a string (a missing one is
    [undefined]) makes the call throw and leaves the transport exactly as
    it was; a non-empty string routes the publish envelope through
    [_socketSend], with [silent] coerced to a boolean. *)
Theorem send_checks_topic
    (message : string) (t sl : JSValue) (st : SocketTransport) :
  (typeof t <> "string" ->
     send message t sl st = (Throw "Missing or invalid topic field", st))
  /\
  (forall s, t = JSString s -> s <> "" ->
     send message t sl st =
       (Normal,
        _socketSend
          {| topic := JSString s; type := "pub"; payload := message;
             silent := truthy sl |} st)).
Proof.
  split.
  - intros Ht. unfold send.
    destruct t; simpl in *; rewrite ?orb_true_r; try reflexivity.
    now destruct Ht.
  - intros s -> Hs. unfold send; simpl.
    destruct (String.eqb_spec s ""); [contradiction|reflexivity].
Qed.

(** The empty string is a string, and [!topic] rejects it as well. *)
Lemma send_empty_topic (message : string) (sl : JSValue) (st : SocketTransport) :
  send message (JSString "") sl st = (Throw "Missing or invalid topic field", st).
Proof. reflexivity. Qed.

(** C10, as the code has it — subscribe.  [subscribe] checks nothing.
    For every topic [JSON.stringify] prints, whether a string or not, the
    empty string and [undefined] included, the call completes normally and
    routes the subscribe envelope carrying that very value through
    [_socketSend]: it goes out on the open connection, or it is queued;
    [send] throws on each such topic that is not a string.  For a topic
    [JSON.stringify] does not print, its TypeError leaves through
    [subscribe] and the transport is as it was. *)
Theorem subscribe_routes_printable_topic (t : JSValue) (st : SocketTransport) :
  let env := {| topic := t; type := "sub"; payload := ""; silent := true |} in
  subscribe (Printable t) st = (Normal, _socketSend env st) /\
  ((exists a, active_open st a /\
      snd (subscribe (Printable t) st) =
        set_transmitted (transmitted st ++ [(a, JSON_stringify env)]) st)
   \/
   ((forall a, ~ active_open st a) /\
      _queue (snd (subscribe (Printable t) st)) = _queue st ++ [env] /\
      transmitted (snd (subscribe (Printable t) st)) = transmitted st)) /\
  (typeof t <> "string" ->
     forall message sl,
       send message t sl st = (Throw "Missing or invalid topic field", st)) /\
  (exists e, subscribe Unprintable st = (Throw e, st)).
Proof.
  intros env. split; [reflexivity|]. split.
  - unfold subscribe, subscribeMessage; simpl. fold env.
    destruct (_socketSend_routes env st) as [Ho Hq].
    destruct (connected st) eqn:Hc.
    + apply connected_active_open in Hc as (a & Ha).
      left. exists a. destruct (Ho a Ha) as [-> _]. now split.
    + pose proof (proj1 (disconnected_active_open st) Hc) as Hn.
      right. destruct (Hq Hn) as (_ & -> & ->). now split.
  - split; [|eexists; reflexivity].
    intros Ht message sl. unfold send.
    destruct t; simpl in *; rewrite ?orb_true_r; try reflexivity.
    now destruct Ht.
Qed.

(** C9 — the constructor.  A url that is not a string makes it throw; a
    non-empty string url yields a transport with no connection, an empty
    queue and the configured subscriptions. *)
Theorem constructor_checks_url (opts : ISocketTransportOptions) :
  (typeof (url opts) <> "string" ->
     constructor opts = ConstructionThrows "Missing or invalid WebSocket url")
  /\
  (forall u, url opts = JSString u -> u <> "" ->
     exists st, constructor opts = Constructed st /\
       _url st = u /\ _socket st = None /\ _nextSocket st = None /\
       _queue st = [] /\
       _subscriptions st = default [] (subscriptions opts) /\
       opts_subscriptions st = subscriptions opts /\
       sockets st = [] /\ timers st = 0).
Proof.
  split.
  - intros Hu. unfold constructor.
    destruct (url opts); simpl in *; rewrite ?orb_true_r; try reflexivity.
    now destruct Hu.
  - intros u Hu Hne. unfold constructor. rewrite Hu; simpl.
    destruct (String.eqb_spec u ""); [contradiction|]. simpl.
    eexists. split; [reflexivity|]. repeat split.
Qed.

Lemma constructor_empty_url (opts : ISocketTransportOptions) :
  url opts = JSString "" ->
  constructor opts = ConstructionThrows "Missing or invalid WebSocket url".
Proof. intros Hu. unfold constructor. now rewrite Hu. Qed.

End Protocol.

(** ** Subscriptions across reconnections *)
Section Subscriptions.

Context `{Platform}.

Variable o : option (list string).

Lemma cfg_socketCreate st :
  replays_configured o st -> replays_configured o (_socketCreate st).
Proof.
  unfold _socketCreate. now destruct (_nextSocket st).
Qed.

Lemma cfg_socketSend m st :
  replays_configured o st -> replays_configured o (_socketSend m st).
Proof.
  intros Hst. unfold _socketSend.
  destruct (connected st).
  - unfold socket_send. now destruct (_socket st).
  - now apply cfg_socketCreate.
Qed.

Lemma cfg_pushQueue st :
  replays_configured o st -> replays_configured o (_pushQueue st).
Proof.
  intros Hst. unfold _pushQueue.
  assert (Hf : replays_configured o
                 (foldl (fun s m => _socketSend m s) st (_queue st))).
  { apply (foldl_invariant (replays_configured o)); [|exact Hst].
    intros s m Hs. now apply cfg_socketSend. }
  exact Hf.
Qed.

Lemma cfg_socketClose st :
  replays_configured o st -> replays_configured o (_socketClose st).
Proof. unfold _socketClose. now destruct (_socket st). Qed.

(** The replay restores the configured list whatever the live list was. *)
Lemma cfg_queueSubscriptions st :
  opts_subscriptions st = o -> replays_configured o (_queueSubscriptions st).
Proof.
  intros Ho. rewrite _queueSubscriptions_spec. split; simpl; now rewrite Ho.
Qed.

Lemma cfg_socketOpen st :
  replays_configured o st -> replays_configured o (_socketOpen st).
Proof.
  intros Hst. unfold _socketOpen.
  apply cfg_pushQueue, cfg_queueSubscriptions.
  simpl. now apply cfg_socketClose.
Qed.

Lemma cfg_socketReceive data st :
  replays_configured o st -> replays_configured o (snd (_socketReceive data st)).
Proof.
  intros Hst. unfold _socketReceive.
  destruct (JSON_parse data) as [[|m]|]; try exact Hst. simpl.
  pose proof (cfg_socketSend (acknowledgeMessage (topic m)) st Hst) as Hs.
  now destruct (connected _).
Qed.

Lemma cfg_step ev st st' :
  step ev st = Some st' ->
  replays_configured o st -> replays_configured o st'.
Proof.
  intros Hstep Hst. destruct ev; simpl in Hstep.
  - injection Hstep as <-. now apply cfg_socketCreate.
  - injection Hstep as <-. now apply cfg_socketClose.
  - injection Hstep as <-. unfold send.
    destruct (negb (truthy topic0) || _); simpl; [exact Hst|].
    now apply cfg_socketSend.
  - injection Hstep as <-. now apply cfg_socketSend.
  - injection Hstep as <-. exact Hst.
  - injection Hstep as <-. now apply cfg_socketCreate.
  - destruct (timers st) as [|n]; [discriminate|].
    injection Hstep as <-. now apply cfg_socketCreate.
  - destruct (sockets st !! i) as [s|]; [|discriminate].
    destruct (WebSocket.readyState s =? WebSocket.CONNECTING)%Z; [|discriminate].
    injection Hstep as <-. now apply cfg_socketOpen.
  - destruct (sockets st !! i) as [s|]; [|discriminate].
    destruct (WebSocket.readyState s =? WebSocket.CLOSED)%Z; [discriminate|].
    injection Hstep as <-. now destruct (WebSocket.onclose s).
  - destruct (sockets st !! i) as [s|]; [|discriminate].
    destruct (_ || _)%bool; [|discriminate].
    injection Hstep as <-. now apply cfg_socketReceive.
  - destruct (sockets st !! i) as [s|]; [|discriminate].
    destruct (WebSocket.readyState s =? WebSocket.CLOSED)%Z; [discriminate|].
    injection Hstep as <-. exact Hst.
Qed.

Lemma cfg_run evs :
  forall st st', run evs st = Some st' ->
    replays_configured o st -> replays_configured o st'.
Proof.
  induction evs as [|ev evs IH]; intros st st' Hrun Hst; simpl in Hrun.
  - now injection Hrun as <-.
  - destruct (step ev st) as [st1|] eqn:Hstep; [|discriminate].
    eapply IH; [exact Hrun|]. eapply cfg_step; eassumption.
Qed.

End Subscriptions.

Section Replay.

Context `{Platform}.

(** C4 — replaying subscriptions.  At any point of any run of a
    constructed transport, that is after any number of reconnections, the
    live subscription list is the configured one; a replay appends one
    subscribe envelope (empty payload, silent) per topic of that list, in
    list order, and leaves the live list equal to the configured list. *)
Theorem replay_is_stable
    (opts : ISocketTransportOptions) (st0 st : SocketTransport)
    (evs : list Event) :
  constructor opts = Constructed st0 ->
  run evs st0 = Some st ->
  let subs := default [] (subscriptions opts) in
  _subscriptions st = subs /\
  _queue (_queueSubscriptions st) =
    _queue st
      ++ map (fun t => {| topic := JSString t; type := "sub";
                          payload := ""; silent := true |}) subs /\
  _subscriptions (_queueSubscriptions st) = subs.
Proof.
  intros Hc Hrun subs.
  assert (H0 : replays_configured (subscriptions opts) st0).
  { unfold constructor in Hc.
    destruct (negb (truthy (url opts)) || _); [discriminate|].
    destruct (url opts); try discriminate.
    injection Hc as <-. split; reflexivity. }
  pose proof (cfg_run _ evs st0 st Hrun H0) as [Ho Hs].
  rewrite _queueSubscriptions_spec; simpl.
  rewrite Hs, Ho. repeat split.
Qed.

End Replay.

(** ** References stay well formed along every run *)
Section WellFormed.

Context `{Platform}.

Lemma wf_socketCreate st : well_formed st -> well_formed (_socketCreate st).
Proof.
  intros Hst. unfold _socketCreate.
  destruct (_nextSocket st) as [p|] eqn:Hp; [exact Hst|].
  destruct Hst as [H1 H2]. split; simpl.
  - intros a Ha. rewrite length_app; simpl. specialize (H1 a Ha). lia.
  - intros p Hp'. injection Hp' as <-. split.
    + intros Ha. specialize (H1 _ Ha). lia.
    + eexists. split; [apply list_lookup_middle; reflexivity|].
      split; reflexivity.
Qed.

Lemma wf_socketSend m st : well_formed st -> well_formed (_socketSend m st).
Proof.
  intros Hst. unfold _socketSend. destruct (connected st).
  - unfold socket_send. now destruct (_socket st).
  - now apply wf_socketCreate.
Qed.

Lemma wf_pushQueue st : well_formed st -> well_formed (_pushQueue st).
Proof.
  intros Hst. unfold _pushQueue.
  assert (Hf : well_formed (foldl (fun s m => _socketSend m s) st (_queue st))).
  { apply (foldl_invariant well_formed); [|exact Hst].
    intros s m Hs. now apply wf_socketSend. }
  exact Hf.
Qed.

Lemma wf_queueSubscriptions st :
  well_formed st -> well_formed (_queueSubscriptions st).
Proof. intros Hst. rewrite _queueSubscriptions_spec. exact Hst. Qed.

Lemma wf_socketClose st : well_formed st -> well_formed (_socketClose st).
Proof.
  intros Hst. unfold _socketClose.
  destruct (_socket st) as [a|] eqn:Ha; [|exact Hst].
  destruct Hst as [H1 H2]. split; simpl.
  - intros a' Ha'. rewrite length_alter. apply H1. congruence.
  - intros p Hp. destruct (H2 p Hp) as (Hne & s & Hs & Hr & Ho).
    split; [congruence|]. exists s.
    rewrite list_lookup_alter_ne by congruence. now split.
Qed.

Lemma wf_socketReceive data st :
  well_formed st -> well_formed (snd (_socketReceive data st)).
Proof.
  intros Hst. unfold _socketReceive.
  destruct (JSON_parse data) as [[|m]|]; try exact Hst. simpl.
  pose proof (wf_socketSend (acknowledgeMessage (topic m)) st Hst) as Hs.
  now destruct (connected _).
Qed.

(** The open event of socket [i]: whatever the slot held is promoted and
    the slot is cleared before anything is sent. *)
Lemma wf_socketOpen st i s' :
  well_formed st ->
  well_formed (_socketOpen (set_sockets (<[i := s']> (sockets st)) st)).
Proof.
  intros [H1 H2]. unfold _socketOpen.
  apply wf_pushQueue, wf_queueSubscriptions.
  set (st1 := set_sockets (<[i := s']> (sockets st)) st).
  assert (Hl : length (sockets (_socketClose st1)) = length (sockets st)).
  { unfold _socketClose. destruct (_socket st1); simpl.
    - now rewrite length_alter, length_insert.
    - now rewrite length_insert. }
  assert (Hn : _nextSocket (_socketClose st1) = _nextSocket st).
  { unfold _socketClose. now destruct (_socket st1). }
  split; simpl.
  - intros a Ha. rewrite Hl. rewrite Hn in Ha.
    destruct (H2 a Ha) as (_ & s & Hs & _).
    now apply lookup_lt_Some in Hs.
  - discriminate.
Qed.

Lemma wf_step ev st st' :
  step ev st = Some st' -> well_formed st -> well_formed st'.
Proof.
  intros Hstep Hst. destruct ev; simpl in Hstep.
  - injection Hstep as <-. now apply wf_socketCreate.
  - injection Hstep as <-. now apply wf_socketClose.
  - injection Hstep as <-. unfold send.
    destruct (negb (truthy topic0) || _); simpl; [exact Hst|].
    now apply wf_socketSend.
  - injection Hstep as <-. now apply wf_socketSend.
  - injection Hstep as <-. exact Hst.
  - injection Hstep as <-. now apply wf_socketCreate.
  - destruct (timers st) as [|n]; [discriminate|].
    injection Hstep as <-. apply wf_socketCreate. exact Hst.
  - destruct (sockets st !! i) as [s|]; [|discriminate].
    destruct (WebSocket.readyState s =? WebSocket.CONNECTING)%Z; [|discriminate].
    injection Hstep as <-. now apply wf_socketOpen.
  - destruct (sockets st !! i) as [s|] eqn:Hi; [|discriminate].
    destruct (WebSocket.readyState s =? WebSocket.CLOSED)%Z; [discriminate|].
    injection Hstep as <-. destruct Hst as [H1 H2].
    destruct (WebSocket.onclose s) eqn:Ho; simpl.
    + split; simpl; [|discriminate].
      intros a Ha. rewrite length_insert. now apply H1.
    + split; simpl.
      * intros a Ha. rewrite length_insert. now apply H1.
      * intros p Hp. destruct (H2 p Hp) as (Hne & sp & Hsp & Hr & Hop).
        split; [exact Hne|]. exists sp.
        rewrite list_lookup_insert_ne; [now split|].
        intros ->. rewrite Hi in Hsp. injection Hsp as ->. congruence.
  - destruct (sockets st !! i) as [s|]; [|discriminate].
    destruct (_ || _)%bool; [|discriminate].
    injection Hstep as <-. now apply wf_socketReceive.
  - destruct (sockets st !! i) as [s|]; [|discriminate].
    destruct (WebSocket.readyState s =? WebSocket.CLOSED)%Z; [discriminate|].
    injection Hstep as <-. exact Hst.
Qed.

Lemma wf_run evs :
  forall st st', run evs st = Some st' -> well_formed st -> well_formed st'.
Proof.
  induction evs as [|ev evs IH]; intros st st' Hrun Hst; simpl in Hrun.
  - now injection Hrun as <-.
  - destruct (step ev st) as [st1|] eqn:Hstep; [|discriminate].
    eapply IH; [exact Hrun|]. eapply wf_step; eassumption.
Qed.

Lemma wf_constructed opts st0 :
  constructor opts = Constructed st0 -> well_formed st0.
Proof.
  unfold constructor. intros Hc.
  destruct (negb (truthy (url opts)) || _); [discriminate|].
  destruct (url opts); try discriminate.
  injection Hc as <-. split; simpl; discriminate.
Qed.

End WellFormed.

(** ** Promotion of the pending connection *)
Section Promotion.

Context `{Platform}.

(** What the open event of socket [p] does when [p] is the pending
    socket, still connecting, and not the active one. *)
Lemma promote_effects (st : SocketTransport) (p : nat) (s : WebSocket.t) :
  _nextSocket st = Some p ->
  sockets st !! p = Some s ->
  WebSocket.readyState s = WebSocket.CONNECTING ->
  _socket st <> Some p ->
  exists st',
    step (SocketOpened p) st = Some st' /\
    st' = _pushQueue
            (_queueSubscriptions
               (set_nextSocket None
                  (set_socket (Some p)
                     (_socketClose
                        (set_sockets
                           (<[p := WebSocket.set_readyState WebSocket.OPEN s]>
                              (sockets st)) st))))) /\
    (forall a sa, _socket st = Some a -> sockets st !! a = Some sa ->
       sockets st' !! a =
         Some (WebSocket.close (WebSocket.set_onclose NoopOnClose sa)) /\
       forall st'', step (SocketClosed a) st' = Some st'' ->
         timers st'' = timers st' /\ _nextSocket st'' = _nextSocket st' /\
         length (sockets st'') = length (sockets st')) /\
    _socket st' = Some p /\ _nextSocket st' = None /\
    sockets st' !! p = Some (WebSocket.set_readyState WebSocket.OPEN s) /\
    transmitted st' =
      transmitted st
        ++ map (fun m => (p, JSON_stringify m))
             (_queue st
                ++ map (fun t => subscribeMessage (JSString t))
                     (_subscriptions st)) /\
    _queue st' = [] /\
    _subscriptions st' = configured st /\
    timers st' = timers st.
Proof.
  intros Hp Hs Hr Hne.
  pose proof (lookup_lt_Some _ _ _ Hs) as Hlt.
  set (opened := WebSocket.set_readyState WebSocket.OPEN s).
  set (st1 := set_sockets (<[p := opened]> (sockets st)) st).
  set (st4 := set_nextSocket None (set_socket (Some p) (_socketClose st1))).
  (* the promoted socket is untouched by the silent close *)
  assert (Hsock : sockets st4 !! p = Some opened).
  { subst st4; simpl. unfold _socketClose.
    destruct (_socket st1) as [a|] eqn:Ha; simpl.
    - rewrite list_lookup_alter_ne by (intros ->; now apply Hne).
      now apply list_lookup_insert_eq.
    - now apply list_lookup_insert_eq. }
  set (st5 := _queueSubscriptions st4).
  assert (Hc5 : connected st5 = true).
  { subst st5. rewrite _queueSubscriptions_spec.
    unfold connected, readyState; simpl.
    change (sockets (_socketClose st1)) with (sockets st4).
    now rewrite Hsock. }
  assert (Ha5 : _socket st5 = Some p)
    by (subst st5; now rewrite _queueSubscriptions_spec).
  exists (_pushQueue st5).
  split.
  { simpl. rewrite Hs, Hr. simpl. f_equal.
    unfold _socketOpen. fold opened. fold st1.
    replace (_nextSocket (_socketClose st1)) with (Some p); [reflexivity|].
    unfold _socketClose. destruct (_socket st1); simpl; now rewrite Hp. }
  split; [reflexivity|].
  rewrite (_pushQueue_connected st5 p Hc5 Ha5).
  subst st5. rewrite _queueSubscriptions_spec. simpl.
  change (sockets (_socketClose st1)) with (sockets st4).
  assert (Hfr : transmitted (_socketClose st1) = transmitted st /\
                _queue (_socketClose st1) = _queue st /\
                _subscriptions (_socketClose st1) = _subscriptions st /\
                opts_subscriptions (_socketClose st1) = opts_subscriptions st /\
                timers (_socketClose st1) = timers st).
  { unfold _socketClose. destruct (_socket st1); repeat split. }
  destruct Hfr as (-> & -> & -> & Ho & Ht).
  split.
  { intros a sa Ha Hsa.
    assert (Hap : a <> p) by (intros ->; now apply Hne).
    assert (Hold : sockets st4 !! a =
              Some (WebSocket.close (WebSocket.set_onclose NoopOnClose sa))).
    { subst st4; simpl. unfold _socketClose.
      change (_socket st1) with (_socket st). rewrite Ha. simpl.
      rewrite list_lookup_alter_eq.
      rewrite list_lookup_insert_ne by congruence.
      now rewrite Hsa. }
    split; [exact Hold|].
    intros st'' Hstep. simpl in Hstep.
    change (sockets (_socketClose st1)) with (sockets st4) in Hstep.
    rewrite Hold in Hstep.
    destruct (WebSocket.readyState _ =? WebSocket.CLOSED)%Z; [discriminate|].
    injection Hstep as <-.
    replace (WebSocket.onclose
               (WebSocket.close (WebSocket.set_onclose NoopOnClose sa)))
      with NoopOnClose
      by (unfold WebSocket.close; now destruct (_ || _)).
    simpl. repeat split. now rewrite length_insert. }
  repeat split; try reflexivity.
  - exact Hsock.
  - unfold configured. now rewrite Ho.
  - exact Ht.
Qed.

(** C6 — the open event of the pending connection, at any point of any
    run of a constructed transport.  The previously
    active socket, if there is one, gets the empty close handler and is
    closed, so that its close event schedules nothing; the pending socket
    becomes the active one and the pending slot is cleared; the
    subscriptions are appended to the queue; the queue, subscriptions
    included, is drained through the newly active socket.  The steps
    happen in this order: the socket silenced is the old one, and what
    goes out goes out on the new one, the replayed subscriptions last. *)
Theorem promote_on_open
    (opts : ISocketTransportOptions) (st0 st : SocketTransport)
    (evs : list Event) (p : nat) :
  constructor opts = Constructed st0 ->
  run evs st0 = Some st ->
  _nextSocket st = Some p ->
  exists s st',
    sockets st !! p = Some s /\
    step (SocketOpened p) st = Some st' /\
    st' = _pushQueue
            (_queueSubscriptions
               (set_nextSocket None
                  (set_socket (Some p)
                     (_socketClose
                        (set_sockets
                           (<[p := WebSocket.set_readyState WebSocket.OPEN s]>
                              (sockets st)) st))))) /\
    (forall a sa, _socket st = Some a -> sockets st !! a = Some sa ->
       sockets st' !! a =
         Some (WebSocket.close (WebSocket.set_onclose NoopOnClose sa)) /\
       forall st'', step (SocketClosed a) st' = Some st'' ->
         timers st'' = timers st' /\ _nextSocket st'' = _nextSocket st' /\
         length (sockets st'') = length (sockets st')) /\
    _socket st' = Some p /\ _nextSocket st' = None /\
    sockets st' !! p = Some (WebSocket.set_readyState WebSocket.OPEN s) /\
    transmitted st' =
      transmitted st
        ++ map (fun m => (p, JSON_stringify m))
             (_queue st
                ++ map (fun t => subscribeMessage (JSString t))
                     (_subscriptions st)) /\
    _queue st' = [] /\
    _subscriptions st' = configured st /\
    timers st' = timers st.
Proof.
  intros Hc Hrun Hp.
  pose proof (wf_run evs st0 st Hrun (wf_constructed opts st0 Hc)) as [_ H2].
  destruct (H2 p Hp) as (Hne & s & Hs & Hr & _).
  destruct (promote_effects st p s Hp Hs Hr Hne) as (st' & Hst').
  exists s, st'. split; [exact Hs|exact Hst'].
Qed.

End Promotion.

(** ** The public close and the retry loop *)
Section Retry.

Context `{Platform}.

Lemma settled_not_connecting (s : WebSocket.t) :
  settled s -> (WebSocket.readyState s =? WebSocket.CONNECTING)%Z = false.
Proof.
  unfold WebSocket.CONNECTING.
  intros [E|[E _]]; rewrite E; reflexivity.
Qed.

(** What [_socketClose] leaves of the active socket is settled, whatever
    state the socket was in. *)
Lemma settled_after_close (s : WebSocket.t) :
  settled (WebSocket.close (WebSocket.set_onclose NoopOnClose s)).
Proof.
  unfold WebSocket.close; simpl.
  destruct (WebSocket.readyState s =? WebSocket.CLOSING)%Z eqn:E2; simpl.
  - right. split; [|reflexivity]. simpl. now apply Z.eqb_eq.
  - destruct (WebSocket.readyState s =? WebSocket.CLOSED)%Z eqn:E3.
    + left. simpl. now apply Z.eqb_eq.
    + right. split; reflexivity.
Qed.

Lemma quiet_step (ev : Event) (st st' : SocketTransport) :
  quiet st -> is_passive_event ev = true ->
  step ev st = Some st' ->
  quiet st' /\ length (sockets st') = length (sockets st).
Proof.
  intros (Hn & Ht & Hs) Hev Hstep.
  destruct ev; try discriminate Hev; simpl in Hstep.
  - (* close() *)
    injection Hstep as <-. unfold close, _socketClose.
    destruct (_socket st) as [a|]; [|now split].
    split; [|apply length_alter].
    repeat split; simpl; try assumption.
    intros i s Hi. rewrite list_lookup_alter in Hi.
    destruct (decide (a = i)) as [->|Hne]; [|now apply (Hs i)].
    destruct (sockets st !! i) as [s0|]; [|discriminate].
    injection Hi as <-. apply settled_after_close.
  - (* on() *)
    injection Hstep as <-. now split.
  - (* timer *) rewrite Ht in Hstep. discriminate.
  - (* open event *)
    destruct (sockets st !! i) as [s|] eqn:Hi; [|discriminate].
    rewrite (settled_not_connecting s (Hs i s Hi)) in Hstep. discriminate.
  - (* close event *)
    destruct (sockets st !! i) as [s|] eqn:Hi; [|discriminate].
    destruct (WebSocket.readyState s =? WebSocket.CLOSED)%Z eqn:Hc;
      [discriminate|].
    destruct (Hs i s Hi) as [E|[_ Ho]].
    { rewrite E in Hc. discriminate. }
    rewrite Ho in Hstep. injection Hstep as <-. simpl.
    split; [|apply length_insert].
    repeat split; simpl; try assumption.
    intros j sj Hj. apply list_lookup_insert_Some in Hj.
    destruct Hj as [(_ & <- & _)|(_ & Hj)].
    + now left.
    + now apply (Hs j).
  - (* error event *)
    destruct (sockets st !! i) as [s|] eqn:Hi; [|discriminate].
    destruct (WebSocket.readyState s =? WebSocket.CLOSED)%Z; [discriminate|].
    injection Hstep as <-. split; [|reflexivity].
    repeat split; simpl; assumption.
Qed.

Lemma quiet_run (evs : list Event) :
  forall st st',
    quiet st -> forallb is_passive_event evs = true ->
    run evs st = Some st' ->
    quiet st' /\ length (sockets st') = length (sockets st).
Proof.
  induction evs as [|ev evs IH]; intros st st' Hq Hevs Hrun; simpl in *.
  - injection Hrun as <-. now split.
  - apply andb_prop in Hevs as [Hev Hevs].
    destruct (step ev st) as [st1|] eqn:Hstep; [|discriminate].
    destruct (quiet_step ev st st1 Hq Hev Hstep) as [Hq1 Hl1].
    destruct (IH st1 st' Hq1 Hevs Hrun) as [Hq' Hl'].
    split; [exact Hq'|]. now rewrite Hl'.
Qed.

Lemma quiet_retry_stopped (st : SocketTransport) :
  quiet st -> retry_stopped st.
Proof.
  intros Hq evs st' Hevs Hrun.
  destruct (quiet_run evs st st' Hq Hevs Hrun) as [(_ & Ht' & _) Hl].
  destruct Hq as (_ & Ht & _).
  unfold attempts. lia.
Qed.

(** C2, as the code has it — public close.  [close] gives the active
    socket, if there is one, the empty close handler and closes it; it
    constructs no socket and leaves every other socket, the pending slot,
    the retry timers and the queue as they are.  When moreover no connection
    attempt is pending, no retry timer is outstanding and every socket other
    than the active one is settled, then after [close] no passive event (a
    close, error or open event of a socket, a timer expiry, a further
    [close], a registration) starts or schedules a connection attempt: the
    active socket's close event finds the empty handler. *)
Theorem close_stops_retry (st : SocketTransport) :
  (forall a s, _socket st = Some a -> sockets st !! a = Some s ->
     sockets (close st) !! a =
       Some (WebSocket.close (WebSocket.set_onclose NoopOnClose s))) /\
  (forall i, _socket st <> Some i ->
     sockets (close st) !! i = sockets st !! i) /\
  length (sockets (close st)) = length (sockets st) /\
  _socket (close st) = _socket st /\
  _nextSocket (close st) = _nextSocket st /\
  timers (close st) = timers st /\
  _queue (close st) = _queue st /\
  (_nextSocket st = None ->
   timers st = 0 ->
   (forall i s, sockets st !! i = Some s -> _socket st <> Some i -> settled s) ->
   retry_stopped (close st)).
Proof.
  unfold close, _socketClose.
  destruct (_socket st) as [a|] eqn:Ha; simpl.
  - split.
    { intros a' s Ha' Hs. injection Ha' as <-.
      now rewrite list_lookup_alter_eq, Hs. }
    split.
    { intros i Hi. apply list_lookup_alter_ne. congruence. }
    split; [apply length_alter|]. split; [exact Ha|].
    split; [reflexivity|]. split; [reflexivity|]. split; [reflexivity|].
    intros Hn Ht Hs. apply quiet_retry_stopped.
    repeat split; simpl; try assumption.
    intros i s Hi. rewrite list_lookup_alter in Hi.
    destruct (decide (a = i)) as [->|Hne].
    + destruct (sockets st !! i) as [s0|]; [|discriminate].
      injection Hi as <-. apply settled_after_close.
    + apply (Hs i s Hi). congruence.
  - split; [discriminate|]. split; [reflexivity|]. split; [reflexivity|].
    split; [exact Ha|].
    split; [reflexivity|]. split; [reflexivity|]. split; [reflexivity|].
    intros Hn Ht Hs. apply quiet_retry_stopped.
    repeat split; try assumption.
    intros i s Hi. now apply (Hs i s Hi).
Qed.

End Retry.

(** ** Runs of a concrete transport *)
Section Scenarios.

#[local] Existing Instance Scenario.platform.
Import Scenario.

(** C2, as stated, fails while a connection attempt is in flight: [close]
    finds no active socket and does nothing, and the close event of the
    pending socket then schedules a retry. *)
Lemma close_keeps_pending_retry :
  _nextSocket dialling = Some 0 /\ close dialling = dialling /\
  ~ retry_stopped (close dialling).
Proof.
  split; [reflexivity|]. split; [reflexivity|].
  intros Hstop.
  assert (Hle : attempts
                  (default fresh (run [SocketClosed 0] (close dialling)))
                <= attempts (close dialling)).
  { apply (Hstop [SocketClosed 0]); reflexivity. }
  vm_compute in Hle. lia.
Qed.

Lemma close_stops_retry_witness : retry_stopped (close online).
Proof.
  apply close_stops_retry.
  - reflexivity.
  - reflexivity.
  - intros i s Hi Hne. destruct i as [|i].
    + now destruct Hne.
    + vm_compute in Hi. discriminate.
Defined.

(** C1 — the drain without an open connection.  The run reaches a
    transport whose queue holds the published envelope; the open event of
    socket 1 then runs the drain while the active slot holds a socket that
    is not open.  The envelope is pushed back, line 245 empties the queue,
    and nothing has been transmitted: the envelope is lost. *)
Lemma drain_loses_requeued :
  exists st st',
    run dropped fresh = Some st /\
    step (SocketOpened 1) st = Some st' /\
    _queue st =
      [{| topic := JSString "t"; type := "pub"; payload := "x";
          silent := false |}] /\
    connected st' = false /\
    _queue st' = [] /\
    transmitted st' = transmitted st.
Proof.
  eexists. eexists.
  split; [vm_compute; reflexivity|].
  split; [vm_compute; reflexivity|].
  repeat split.
Qed.

(** C5 — two attempts in flight.  Socket 1 is pending when the close
    event of the active socket 0 clears the pending slot; the retry timer
    then finds the slot empty and [_socketCreate] constructs socket 2
    while socket 1 is still connecting. *)
Lemma second_attempt_while_pending :
  exists st st',
    run [CallOpen; SocketOpened 0; NetOnline; SocketClosed 0] fresh = Some st /\
    pending_attempts st = [1] /\ _nextSocket st = None /\
    step TimerFired st = Some st' /\
    pending_attempts st' = [1; 2] /\
    ~ at_most_one_pending st'.
Proof.
  eexists. eexists.
  split; [vm_compute; reflexivity|].
  split; [reflexivity|]. split; [reflexivity|].
  split; [vm_compute; reflexivity|].
  split; [reflexivity|].
  unfold at_most_one_pending. vm_compute. lia.
Qed.

Lemma transmit_or_queue_witness :
  active_open online 0 /\ (forall a, ~ active_open fresh a) /\
  _queue (_socketSend hello online) = _queue online /\
  _queue (_socketSend hello fresh) = [hello].
Proof.
  assert (Ho : active_open online 0).
  { split; [reflexivity|]. eexists. split; vm_compute; reflexivity. }
  assert (Hf : forall a, ~ active_open fresh a).
  { intros a [Ha _]. discriminate Ha. }
  split; [exact Ho|]. split; [exact Hf|]. split.
  - exact (proj2 (proj1 (transmit_or_queue hello online) 0 Ho)).
  - exact (proj1 (proj2 (proj2 (transmit_or_queue hello fresh) Hf))).
Defined.

(** C3 — data that parses to null.  The text [null] is JSON:
    [JSON.parse] returns, the [catch] branch is not taken, and reading
    [topic] of the result throws before [_socketSend] is called.  No
    acknowledge envelope is transmitted or queued, although the data parsed
    successfully; the exception rejects the handler's promise. *)
Lemma receive_null_is_not_acknowledged :
  JSON_parse "null" = Some ParsedNull /\
  fst (_socketReceive "null" online) <> Normal /\
  snd (_socketReceive "null" online) = online /\
  step (SocketMessage 0 "null") online = Some online.
Proof.
  split; [reflexivity|]. split; [discriminate|]. split; [reflexivity|].
  vm_compute. reflexivity.
Qed.

(** C10, as stated, fails on a topic [JSON.stringify] does not print:
    [subscribe] throws. *)
Lemma subscribe_throws_on_unprintable_topic :
  fst (subscribe Unprintable fresh) <> Normal /\
  snd (subscribe Unprintable fresh) = fresh.
Proof. split; [discriminate|reflexivity]. Qed.

Lemma subscribe_routes_printable_topic_witness :
  typeof JSUndefined <> "string" /\
  subscribe (Printable JSUndefined) fresh =
    (Normal,
     _socketSend {| topic := JSUndefined; type := "sub"; payload := "";
                    silent := true |} fresh) /\
  send "hi" JSUndefined JSUndefined fresh =
    (Throw "Missing or invalid topic field", fresh) /\
  (exists e, subscribe Unprintable fresh = (Throw e, fresh)).
Proof.
  assert (Hu : typeof JSUndefined <> "string") by discriminate.
  destruct (subscribe_routes_printable_topic JSUndefined fresh)
    as (Hs & _ & Hsend & Hthrow).
  split; [exact Hu|]. split; [exact Hs|]. split; [|exact Hthrow].
  exact (Hsend Hu "hi" JSUndefined).
Defined.

Lemma send_checks_topic_witness :
  typeof JSUndefined <> "string" /\
  send "hi" JSUndefined JSUndefined online =
    (Throw "Missing or invalid topic field", online) /\
  send "x" (JSString "a") JSUndefined online =
    (Normal,
     _socketSend
       {| topic := JSString "a"; type := "pub"; payload := "x";
          silent := false |} online).
Proof.
  assert (Hu : typeof JSUndefined <> "string") by discriminate.
  split; [exact Hu|]. split.
  - exact (proj1 (send_checks_topic "hi" JSUndefined JSUndefined online) Hu).
  - apply (proj2 (send_checks_topic "x" (JSString "a") JSUndefined online) "a").
    + reflexivity.
    + discriminate.
Defined.

Lemma constructor_checks_url_witness :
  constructor {| protocol := "wc"; version := 1; url := JSUndefined;
                 subscriptions := None |} =
    ConstructionThrows "Missing or invalid WebSocket url" /\
  exists st, constructor opts = Constructed st /\
    _url st = "https://relay.example" /\ _socket st = None /\
    _nextSocket st = None /\ _queue st = [] /\
    _subscriptions st = ["a"; "b"] /\
    opts_subscriptions st = Some ["a"; "b"] /\
    sockets st = [] /\ timers st = 0.
Proof.
  split.
  - apply (proj1 (constructor_checks_url
                    {| protocol := "wc"; version := 1; url := JSUndefined;
                       subscriptions := None |})).
    discriminate.
  - apply (proj2 (constructor_checks_url opts) "https://relay.example").
    + reflexivity.
    + discriminate.
Defined.

(** Two reconnections, then a replay. *)
Lemma replay_is_stable_witness :
  let st := state_after [CallOpen; SocketOpened 0; SocketClosed 0;
                         TimerFired; SocketOpened 1; SocketClosed 1] in
  constructor opts = Constructed fresh /\
  _subscriptions st = ["a"; "b"] /\
  _queue (_queueSubscriptions st) =
    _queue st
      ++ map (fun t => {| topic := JSString t; type := "sub";
                          payload := ""; silent := true |}) ["a"; "b"] /\
  _subscriptions (_queueSubscriptions st) = ["a"; "b"].
Proof.
  intros st. split; [reflexivity|].
  apply (replay_is_stable opts fresh st
           [CallOpen; SocketOpened 0; SocketClosed 0;
            TimerFired; SocketOpened 1; SocketClosed 1]).
  - vm_compute; reflexivity.
  - vm_compute; reflexivity.
Defined.

Lemma promote_on_open_witness :
  constructor opts = Constructed fresh /\
  run [CallOpen; SocketOpened 0; NetOnline] fresh = Some redialling /\
  _nextSocket redialling = Some 1 /\ _socket redialling = Some 0 /\
  exists st',
    step (SocketOpened 1) redialling = Some st' /\
    _socket st' = Some 1 /\ _nextSocket st' = None /\ _queue st' = [] /\
    timers st' = timers redialling.
Proof.
  assert (Hc : constructor opts = Constructed fresh) by reflexivity.
  assert (Hr : run [CallOpen; SocketOpened 0; NetOnline] fresh = Some redialling)
    by (vm_compute; reflexivity).
  assert (Hp : _nextSocket redialling = Some 1) by reflexivity.
  split; [exact Hc|]. split; [exact Hr|]. split; [exact Hp|].
  split; [reflexivity|].
  destruct (promote_on_open opts fresh redialling
              [CallOpen; SocketOpened 0; NetOnline] 1 Hc Hr Hp)
    as (s & st' & _ & Hstep & _ & _ & Ha & Hn & _ & _ & Hq & _ & Ht).
  exists st'. repeat split; assumption.
Defined.

End Scenarios.

(** ** What each method leaves alone *)
Section Frame.

Context `{Platform} {A : Type} (f : SocketTransport -> A).

Hypothesis f_socket : forall v st, f (set_socket v st) = f st.
Hypothesis f_nextSocket : forall v st, f (set_nextSocket v st) = f st.
Hypothesis f_queue : forall v st, f (set_queue v st) = f st.
Hypothesis f_subscriptions : forall v st, f (set_subscriptions v st) = f st.
Hypothesis f_sockets : forall v st, f (set_sockets v st) = f st.
Hypothesis f_timers : forall v st, f (set_timers v st) = f st.
Hypothesis f_transmitted : forall v st, f (set_transmitted v st) = f st.

Lemma frame_socketCreate st : f (_socketCreate st) = f st.
Proof.
  unfold _socketCreate. destruct (_nextSocket st); [reflexivity|].
  now rewrite f_nextSocket, f_sockets.
Qed.

Lemma frame_socketClose st : f (_socketClose st) = f st.
Proof. unfold _socketClose. destruct (_socket st); [apply f_sockets|reflexivity]. Qed.

Lemma frame_socketSend m st : f (_socketSend m st) = f st.
Proof.
  unfold _socketSend. destruct (connected st).
  - unfold socket_send. destruct (_socket st); [apply f_transmitted|reflexivity].
  - rewrite frame_socketCreate. apply f_queue.
Qed.

Lemma frame_pushQueue st : f (_pushQueue st) = f st.
Proof.
  unfold _pushQueue. rewrite f_queue.
  apply (foldl_invariant (fun s => f s = f st)); [|reflexivity].
  intros s m Hs. now rewrite frame_socketSend.
Qed.

Lemma frame_queueSubscriptions st : f (_queueSubscriptions st) = f st.
Proof. rewrite _queueSubscriptions_spec. now rewrite f_subscriptions, f_queue. Qed.

Lemma frame_socketOpen st : f (_socketOpen st) = f st.
Proof.
  unfold _socketOpen.
  now rewrite frame_pushQueue, frame_queueSubscriptions, f_nextSocket, f_socket,
    frame_socketClose.
Qed.

Lemma frame_onclose h st : f (run_onclose h st) = f st.
Proof. destruct h; simpl; [now rewrite f_timers, f_nextSocket|reflexivity]. Qed.

(** Every event but a call of [on] and the calls of listeners. *)
Lemma frame_step ev st st' :
  (forall v s, f (set_delivered v s) = f s) ->
  (forall name callback, ev <> CallOn name callback) ->
  step ev st = Some st' -> f st' = f st.
Proof.
  intros f_delivered Hev Hstep. destruct ev; simpl in Hstep.
  - injection Hstep as <-. apply frame_socketCreate.
  - injection Hstep as <-. apply frame_socketClose.
  - injection Hstep as <-. unfold send.
    destruct (negb (truthy topic0) || _); simpl; [reflexivity|].
    apply frame_socketSend.
  - injection Hstep as <-. apply frame_socketSend.
  - now destruct (Hev name callback0).
  - injection Hstep as <-. apply frame_socketCreate.
  - destruct (timers st) as [|n]; [discriminate|].
    injection Hstep as <-. now rewrite frame_socketCreate, f_timers.
  - destruct (sockets st !! i) as [s|]; [|discriminate].
    destruct (WebSocket.readyState s =? WebSocket.CONNECTING)%Z; [|discriminate].
    injection Hstep as <-. now rewrite frame_socketOpen, f_sockets.
  - destruct (sockets st !! i) as [s|]; [|discriminate].
    destruct (WebSocket.readyState s =? WebSocket.CLOSED)%Z; [discriminate|].
    injection Hstep as <-. now rewrite frame_onclose, f_sockets.
  - destruct (sockets st !! i) as [s|]; [|discriminate].
    destruct (_ || _)%bool; [|discriminate].
    injection Hstep as <-. unfold _socketReceive.
    destruct (JSON_parse data) as [[|m]|]; try reflexivity. simpl.
    destruct (connected _); [unfold dispatch; rewrite f_delivered|];
      apply frame_socketSend.
  - destruct (sockets st !! i) as [s|]; [|discriminate].
    destruct (WebSocket.readyState s =? WebSocket.CLOSED)%Z; [discriminate|].
    injection Hstep as <-. unfold _socketError, dispatch. apply f_delivered.
Qed.

End Frame.

(** ** Listeners *)
Section Listeners.

Context `{Platform}.

Lemma connected_socketSend m st : connected (_socketSend m st) = connected st.
Proof.
  unfold _socketSend. destruct (connected st) eqn:Hc.
  - unfold socket_send. destruct (_socket st); [|exact Hc]. exact Hc.
  - rewrite connected_socketCreate. exact Hc.
Qed.

Lemma step_events ev st st' :
  step ev st = Some st' -> _events st' = _events st ++ registrations [ev].
Proof.
  intros Hstep.
  assert (Hkeep : (forall name callback, ev <> CallOn name callback) ->
                  _events st' = _events st ++ []).
  { intros Hne. rewrite app_nil_r.
    eapply (frame_step _events); [reflexivity..|exact Hne|exact Hstep]. }
  destruct ev; try (apply Hkeep; discriminate).
  simpl in Hstep. injection Hstep as <-. reflexivity.
Qed.

(** X1 — registrations only accumulate.  Along any run the list of
    registrations is the list at the start followed by one registration per
    call of [on], in call order: nothing is removed, merged or reordered,
    and no other event touches the list. *)
Theorem registrations_accumulate (evs : list Event) :
  forall st st' : SocketTransport,
    run evs st = Some st' ->
    _events st' = _events st ++ registrations evs.
Proof.
  induction evs as [|ev evs IH]; intros st st' Hrun; simpl in Hrun.
  - injection Hrun as <-. simpl. now rewrite app_nil_r.
  - destruct (step ev st) as [st1|] eqn:Hstep; [|discriminate].
    rewrite (IH st1 st' Hrun), (step_events ev st st1 Hstep).
    rewrite <- app_assoc. f_equal.
    unfold registrations; simpl. now rewrite app_nil_r.
Qed.


Lemma dispatch_registered name p st :
  name = match p with
         | MessagePayload _ => "message"
         | ErrorPayload _ => "error"
         end ->
  Forall (delivery_registered (_events st)) (delivered st) ->
  Forall (delivery_registered (_events (dispatch name p st)))
         (delivered (dispatch name p st)).
Proof.
  intros Hname Hst. unfold dispatch; simpl.
  apply Forall_app. split; [exact Hst|].
  apply Forall_forall. intros d Hd.
  apply list_elem_of_In, in_map_iff in Hd as (e & <- & He).
  apply filter_In in He as [He Hn].
  apply String.eqb_eq in Hn.
  unfold delivery_registered; simpl. rewrite <- Hname, <- Hn.
  now destruct e.
Qed.

Lemma registered_step ev st st' :
  step ev st = Some st' ->
  Forall (delivery_registered (_events st)) (delivered st) ->
  Forall (delivery_registered (_events st')) (delivered st').
Proof.
  intros Hstep Hst.
  assert (Hkeep : forall s, _events s = _events st -> delivered s = delivered st ->
            Forall (delivery_registered (_events s)) (delivered s))
    by (intros s -> ->; exact Hst).
  destruct ev; simpl in Hstep.
  - injection Hstep as <-.
    apply Hkeep; [apply (frame_socketCreate _events)|apply (frame_socketCreate delivered)];
      reflexivity.
  - injection Hstep as <-.
    apply Hkeep; [apply (frame_socketClose _events)|apply (frame_socketClose delivered)];
      reflexivity.
  - injection Hstep as <-. unfold send.
    destruct (negb (truthy topic0) || _); simpl; [exact Hst|].
    apply Hkeep; [apply (frame_socketSend _events)|apply (frame_socketSend delivered)];
      reflexivity.
  - injection Hstep as <-.
    apply Hkeep; [apply (frame_socketSend _events)|apply (frame_socketSend delivered)];
      reflexivity.
  - injection Hstep as <-. simpl.
    eapply Forall_impl; [exact Hst|].
    intros d Hd. unfold delivery_registered in *. apply in_or_app. now left.
  - injection Hstep as <-.
    apply Hkeep; [apply (frame_socketCreate _events)|apply (frame_socketCreate delivered)];
      reflexivity.
  - destruct (timers st) as [|n]; [discriminate|].
    injection Hstep as <-.
    apply Hkeep;
      [rewrite (frame_socketCreate _events)|rewrite (frame_socketCreate delivered)];
      reflexivity.
  - destruct (sockets st !! i) as [s|]; [|discriminate].
    destruct (WebSocket.readyState s =? WebSocket.CONNECTING)%Z; [|discriminate].
    injection Hstep as <-.
    apply Hkeep;
      [rewrite (frame_socketOpen _events)|rewrite (frame_socketOpen delivered)];
      reflexivity.
  - destruct (sockets st !! i) as [s|]; [|discriminate].
    destruct (WebSocket.readyState s =? WebSocket.CLOSED)%Z; [discriminate|].
    injection Hstep as <-.
    apply Hkeep;
      [rewrite (frame_onclose _events)|rewrite (frame_onclose delivered)];
      reflexivity.
  - destruct (sockets st !! i) as [s|]; [|discriminate].
    destruct (_ || _)%bool; [|discriminate].
    injection Hstep as <-. unfold _socketReceive.
    destruct (JSON_parse data) as [[|m]|]; try exact Hst. simpl.
    assert (Hs : Forall
              (delivery_registered
                 (_events (_socketSend (acknowledgeMessage (topic m)) st)))
              (delivered (_socketSend (acknowledgeMessage (topic m)) st))).
    { apply Hkeep;
        [apply (frame_socketSend _events)|apply (frame_socketSend delivered)];
        reflexivity. }
    destruct (connected _); [|exact Hs].
    now apply dispatch_registered.
  - destruct (sockets st !! i) as [s|]; [|discriminate].
    destruct (WebSocket.readyState s =? WebSocket.CLOSED)%Z; [discriminate|].
    injection Hstep as <-. now apply dispatch_registered.
Qed.

(** X3 — who gets called with what.  At any point of any run of a
    constructed transport, every call of a listener that has happened was a
    call of a callback registered by [on]: with an envelope if the callback
    is registered under "message", with an error event if it is registered
    under "error".  No callback registered under another name is ever
    called, and none is called that was not registered. *)
Theorem deliveries_are_registered
    (opts : ISocketTransportOptions) (st0 st : SocketTransport)
    (evs : list Event) :
  constructor opts = Constructed st0 ->
  run evs st0 = Some st ->
  Forall (delivery_registered (_events st)) (delivered st).
Proof.
  intros Hc Hrun.
  assert (H0 : Forall (delivery_registered (_events st0)) (delivered st0)).
  { unfold constructor in Hc.
    destruct (negb (truthy (url opts)) || _); [discriminate|].
    destruct (url opts); try discriminate.
    injection Hc as <-. constructor. }
  clear Hc. revert st0 st Hrun H0.
  induction evs as [|ev evs IH]; intros st0 st Hrun H0; simpl in Hrun.
  - now injection Hrun as <-.
  - destruct (step ev st0) as [st1|] eqn:Hstep; [|discriminate].
    apply (IH st1 st Hrun). now apply (registered_step ev st0).
Qed.

End Listeners.

(** ** Properties of all the sockets of a run *)
Section SocketsInvariant.

Context `{Platform} (P : WebSocket.t -> Prop).

Hypothesis P_silenced :
  forall s, P s -> P (WebSocket.close (WebSocket.set_onclose NoopOnClose s)).
Hypothesis P_readyState :
  forall r s, (r = WebSocket.OPEN \/ r = WebSocket.CLOSED) -> P s ->
    P (WebSocket.set_readyState r s).

Lemma si_socketCreate st :
  sockets_satisfy P st -> sockets_satisfy P (_socketCreate st).
Proof.
  intros Hst. unfold _socketCreate.
  destruct (_nextSocket st); [exact Hst|].
  destruct Hst as [Hn Hs]. split; simpl; [exact Hn|].
  apply Forall_app. split; [exact Hs|]. now constructor.
Qed.

Lemma si_socketClose st :
  sockets_satisfy P st -> sockets_satisfy P (_socketClose st).
Proof.
  intros Hst. unfold _socketClose.
  destruct (_socket st) as [a|]; [|exact Hst].
  destruct Hst as [Hn Hs]. split; simpl; [exact Hn|].
  apply Forall_alter; [exact Hs|]. intros s _. apply P_silenced.
Qed.

Lemma si_socketSend m st :
  sockets_satisfy P st -> sockets_satisfy P (_socketSend m st).
Proof.
  intros Hst. unfold _socketSend. destruct (connected st).
  - unfold socket_send. now destruct (_socket st).
  - now apply si_socketCreate.
Qed.

Lemma si_pushQueue st :
  sockets_satisfy P st -> sockets_satisfy P (_pushQueue st).
Proof.
  intros Hst. unfold _pushQueue.
  assert (Hf : sockets_satisfy P
                 (foldl (fun s m => _socketSend m s) st (_queue st))).
  { apply (foldl_invariant (sockets_satisfy P)); [|exact Hst].
    intros s m Hs. now apply si_socketSend. }
  exact Hf.
Qed.

Lemma si_socketOpen st :
  sockets_satisfy P st -> sockets_satisfy P (_socketOpen st).
Proof.
  intros Hst. unfold _socketOpen. apply si_pushQueue.
  rewrite _queueSubscriptions_spec. now apply si_socketClose in Hst.
Qed.

Lemma si_socketReceive data st :
  sockets_satisfy P st -> sockets_satisfy P (snd (_socketReceive data st)).
Proof.
  intros Hst. unfold _socketReceive.
  destruct (JSON_parse data) as [[|m]|]; try exact Hst. simpl.
  pose proof (si_socketSend (acknowledgeMessage (topic m)) st Hst) as Hs.
  now destruct (connected _).
Qed.

Lemma si_step ev st st' :
  step ev st = Some st' -> sockets_satisfy P st -> sockets_satisfy P st'.
Proof.
  intros Hstep Hst. destruct ev; simpl in Hstep.
  - injection Hstep as <-. now apply si_socketCreate.
  - injection Hstep as <-. now apply si_socketClose.
  - injection Hstep as <-. unfold send.
    destruct (negb (truthy topic0) || _); simpl; [exact Hst|].
    now apply si_socketSend.
  - injection Hstep as <-. now apply si_socketSend.
  - injection Hstep as <-. exact Hst.
  - injection Hstep as <-. now apply si_socketCreate.
  - destruct (timers st) as [|n]; [discriminate|].
    injection Hstep as <-. apply si_socketCreate. exact Hst.
  - destruct (sockets st !! i) as [s|] eqn:Hi; [|discriminate].
    destruct (WebSocket.readyState s =? WebSocket.CONNECTING)%Z; [|discriminate].
    injection Hstep as <-. apply si_socketOpen.
    destruct Hst as [Hn Hs]. split; simpl; [exact Hn|].
    apply Forall_insert; [exact Hs|].
    apply P_readyState; [now left|]. exact (Forall_lookup_1 _ _ _ _ Hs Hi).
  - destruct (sockets st !! i) as [s|] eqn:Hi; [|discriminate].
    destruct (WebSocket.readyState s =? WebSocket.CLOSED)%Z; [discriminate|].
    injection Hstep as <-.
    destruct Hst as [Hn Hs].
    assert (Hi' : Forall P (<[i := WebSocket.set_readyState WebSocket.CLOSED s]>
                              (sockets st))).
    { apply Forall_insert; [exact Hs|].
      apply P_readyState; [now right|]. exact (Forall_lookup_1 _ _ _ _ Hs Hi). }
    destruct (WebSocket.onclose s); split; simpl; assumption.
  - destruct (sockets st !! i) as [s|]; [|discriminate].
    destruct (_ || _)%bool; [|discriminate].
    injection Hstep as <-. now apply si_socketReceive.
  - destruct (sockets st !! i) as [s|]; [|discriminate].
    destruct (WebSocket.readyState s =? WebSocket.CLOSED)%Z; [discriminate|].
    injection Hstep as <-. exact Hst.
Qed.

Lemma si_run evs :
  forall st st', run evs st = Some st' ->
    sockets_satisfy P st -> sockets_satisfy P st'.
Proof.
  induction evs as [|ev evs IH]; intros st st' Hrun Hst; simpl in Hrun.
  - now injection Hrun as <-.
  - destruct (step ev st) as [st1|] eqn:Hstep; [|discriminate].
    eapply IH; [exact Hrun|]. eapply si_step; eassumption.
Qed.

End SocketsInvariant.

Section Reachable.

Context `{Platform}.

(** X4 — the two connection slots along a run.  At any point of any run
    of a constructed transport the active reference, when set, refers to a
    socket the transport has constructed; the pending slot, when occupied,
    holds a socket that is still connecting, still carries the retry close
    handler, and is not the active socket. *)
Theorem slots_well_formed
    (opts : ISocketTransportOptions) (st0 st : SocketTransport)
    (evs : list Event) :
  constructor opts = Constructed st0 ->
  run evs st0 = Some st ->
  well_formed st.
Proof.
  intros Hc Hrun. exact (wf_run evs st0 st Hrun (wf_constructed opts st0 Hc)).
Qed.

(** X5 — one endpoint.  Every socket the transport constructs along a
    run, whatever the reason for constructing it, is constructed with the
    one URL computed from the configured url, protocol and version. *)
Theorem every_socket_dials_configured_url
    (opts : ISocketTransportOptions) (st0 st : SocketTransport)
    (evs : list Event) (u : string) :
  constructor opts = Constructed st0 ->
  run evs st0 = Some st ->
  url opts = JSString u ->
  Forall (fun s => WebSocket.url s =
                     getWebSocketUrl u (protocol opts) (version opts))
         (sockets st).
Proof.
  intros Hc Hrun Hu.
  set (P := fun s => WebSocket.url s =
                       getWebSocketUrl u (protocol opts) (version opts)).
  assert (H0 : sockets_satisfy P st0).
  { unfold constructor in Hc. rewrite Hu in Hc.
    destruct (negb (truthy (JSString u)) || _); [discriminate|].
    injection Hc as <-. split; [reflexivity|constructor]. }
  refine (proj2 (si_run P _ _ evs st0 st Hrun H0)).
  - intros s Hs. unfold P, WebSocket.close in *.
    now destruct (_ || _).
  - intros r s _ Hs. exact Hs.
Qed.

(** X6 — the status getters along a run.  [readyState] is -1 exactly when
    there is no active socket and is otherwise between 0 and 3; so with an
    active socket one of [connecting], [connected], [closing] and [closed]
    answers true, and without one all four answer false. *)
Theorem readyState_range
    (opts : ISocketTransportOptions) (st0 st : SocketTransport)
    (evs : list Event) :
  constructor opts = Constructed st0 ->
  run evs st0 = Some st ->
  (_socket st = None <-> readyState st = (-1)%Z) /\
  (-1 <= readyState st <= 3)%Z /\
  (connecting st || connected st || closing st || closed st
   = bool_decide (is_Some (_socket st))).
Proof.
  intros Hc Hrun.
  set (P := fun s => (0 <= WebSocket.readyState s <= 3)%Z).
  assert (H0 : sockets_satisfy P st0).
  { unfold constructor in Hc.
    destruct (negb (truthy (url opts)) || _); [discriminate|].
    destruct (url opts); try discriminate.
    injection Hc as <-. split; [|constructor].
    unfold P; simpl. unfold WebSocket.CONNECTING. lia. }
  assert (Hs : Forall P (sockets st)).
  { refine (proj2 (si_run P _ _ evs st0 st Hrun H0)).
    - intros s Hs. unfold P, WebSocket.close in *.
      destruct (_ || _); simpl; [exact Hs|]. unfold WebSocket.CLOSING. lia.
    - intros r s [-> | ->] _; unfold P; simpl;
        unfold WebSocket.OPEN, WebSocket.CLOSED; lia. }
  pose proof (wf_run evs st0 st Hrun (wf_constructed opts st0 Hc)) as [H1 _].
  unfold connecting, connected, closing, closed, readyState.
  destruct (_socket st) as [a|] eqn:Ha.
  - destruct (lookup_lt_is_Some_2 _ _ (H1 a eq_refl)) as [s Hsa].
    rewrite Hsa. pose proof (Forall_lookup_1 _ _ _ _ Hs Hsa) as Hr.
    unfold P in Hr.
    split; [split; [discriminate|lia]|]. split; [lia|].
    rewrite bool_decide_eq_true_2 by eauto.
    destruct (Z.eqb_spec (WebSocket.readyState s) 0); [reflexivity|].
    destruct (Z.eqb_spec (WebSocket.readyState s) 1); [reflexivity|].
    destruct (Z.eqb_spec (WebSocket.readyState s) 2); [reflexivity|].
    destruct (Z.eqb_spec (WebSocket.readyState s) 3); [reflexivity|lia].
  - split; [now split|]. split; [lia|].
    rewrite bool_decide_eq_false_2; [reflexivity|].
    intros [? ?]; discriminate.
Qed.

End Reachable.

(** ** Transmission *)
Section Transmission.

Context `{Platform}.

Lemma active_open_keep st st' a :
  _socket st' = _socket st -> sockets st' = sockets st ->
  active_open st a -> active_open st' a.
Proof. unfold active_open. now intros -> ->. Qed.

Lemma sends_socketSend m st :
  exists sent,
    transmitted (_socketSend m st) = transmitted st ++ sent /\
    forall a frame, In (a, frame) sent -> active_open (_socketSend m st) a.
Proof.
  destruct (connected st) eqn:Hc.
  - destruct (_socketSend_connected m st Hc) as (a & Ha & ->).
    exists [(a, JSON_stringify m)]. split; [reflexivity|].
    intros a' frame [E|[]]. injection E as <- _.
    apply connected_active_open in Hc as (a'' & Ho).
    replace a'' with a in Ho by (destruct Ho; congruence).
    now apply (active_open_keep st).
  - exists []. rewrite app_nil_r. split; [|intros a frame []].
    rewrite (_socketSend_disconnected m st Hc).
    rewrite (frame_socketCreate transmitted); reflexivity.
Qed.

Lemma sends_pushQueue st :
  exists sent,
    transmitted (_pushQueue st) = transmitted st ++ sent /\
    forall a frame, In (a, frame) sent -> active_open (_pushQueue st) a.
Proof.
  destruct (connected st) eqn:Hc.
  - pose proof Hc as Ho. apply connected_active_open in Ho as (a & Ho).
    rewrite (_pushQueue_connected st a Hc (proj1 Ho)).
    eexists. split; [reflexivity|].
    intros a' frame Hin. apply in_map_iff in Hin as (m & E & _).
    injection E as <- _. now apply (active_open_keep st).
  - exists []. rewrite app_nil_r. split; [|intros a frame []].
    apply (_pushQueue_disconnected st Hc).
Qed.

(** X7 — frames only go out on an open socket.  Whatever the event, the
    frames it causes to be sent are appended to those sent before, and each
    of them is sent on the socket that is the active one and open when the
    handler returns: [socket.send] is never called on a pending socket, nor
    on one that is connecting, closing or closed. *)
Theorem frames_go_out_on_open_active
    (ev : Event) (st st' : SocketTransport) :
  step ev st = Some st' ->
  exists sent,
    transmitted st' = transmitted st ++ sent /\
    forall a frame, In (a, frame) sent -> active_open st' a.
Proof.
  intros Hstep.
  assert (Hnone : forall s, transmitted s = transmitted st ->
            exists sent, transmitted s = transmitted st ++ sent /\
              forall a frame, In (a, frame) sent -> active_open s a).
  { intros s E. exists []. rewrite app_nil_r. split; [exact E|intros a frame []]. }
  destruct ev; simpl in Hstep.
  - injection Hstep as <-. apply Hnone.
    apply (frame_socketCreate transmitted); reflexivity.
  - injection Hstep as <-. apply Hnone.
    apply (frame_socketClose transmitted); reflexivity.
  - injection Hstep as <-. unfold send.
    destruct (negb (truthy topic0) || _); simpl.
    + now apply Hnone.
    + apply sends_socketSend.
  - injection Hstep as <-. apply sends_socketSend.
  - injection Hstep as <-. now apply Hnone.
  - injection Hstep as <-. apply Hnone.
    apply (frame_socketCreate transmitted); reflexivity.
  - destruct (timers st) as [|n]; [discriminate|].
    injection Hstep as <-. apply Hnone.
    rewrite (frame_socketCreate transmitted); reflexivity.
  - destruct (sockets st !! i) as [s|]; [|discriminate].
    destruct (WebSocket.readyState s =? WebSocket.CONNECTING)%Z; [|discriminate].
    injection Hstep as <-. unfold _socketOpen.
    match goal with
    | |- context [_pushQueue ?x] =>
        destruct (sends_pushQueue x) as (sent & Et & Hsent);
        assert (E0 : transmitted x = transmitted st)
    end.
    { rewrite (frame_queueSubscriptions transmitted) by reflexivity. simpl.
      rewrite (frame_socketClose transmitted); reflexivity. }
    exists sent. rewrite Et, E0. now split.
  - destruct (sockets st !! i) as [s|]; [|discriminate].
    destruct (WebSocket.readyState s =? WebSocket.CLOSED)%Z; [discriminate|].
    injection Hstep as <-. apply Hnone.
    rewrite (frame_onclose transmitted); reflexivity.
  - destruct (sockets st !! i) as [s|]; [|discriminate].
    destruct (_ || _)%bool; [|discriminate].
    injection Hstep as <-. unfold _socketReceive.
    destruct (JSON_parse data) as [[|m]|]; try (now apply Hnone). simpl.
    destruct (sends_socketSend (acknowledgeMessage (topic m)) st)
      as (sent & Et & Hsent).
    exists sent. destruct (connected _); [|now split].
    split; [exact Et|].
    intros a frame Hin. specialize (Hsent a frame Hin).
    now apply (active_open_keep (_socketSend (acknowledgeMessage (topic m)) st)).
  - destruct (sockets st !! i) as [s|]; [|discriminate].
    destruct (WebSocket.readyState s =? WebSocket.CLOSED)%Z; [discriminate|].
    injection Hstep as <-. now apply Hnone.
Qed.

(** X8 — the drain on an open connection.  When the active connection is
    open, [_pushQueue] sends every queued envelope on it, oldest first,
    leaves the queue empty, and changes nothing else: no socket is
    constructed, closed or replaced. *)
Theorem drain_on_open_connection (st : SocketTransport) (a : nat) :
  active_open st a ->
  _pushQueue st =
    set_queue []
      (set_transmitted
         (transmitted st ++ map (fun m => (a, JSON_stringify m)) (_queue st))
         st).
Proof.
  intros Ho. apply _pushQueue_connected; [|exact (proj1 Ho)].
  apply connected_active_open. eauto.
Qed.

Lemma offline_socketSend m st :
  _socket st = None ->
  _socket (_socketSend m st) = None /\
  transmitted (_socketSend m st) = transmitted st.
Proof.
  intros Hs.
  assert (Hc : connected st = false)
    by (unfold connected, readyState; now rewrite Hs).
  rewrite (_socketSend_disconnected m st Hc).
  split.
  - rewrite (frame_socketCreate _socket); [exact Hs|reflexivity..].
  - rewrite (frame_socketCreate transmitted); reflexivity.
Qed.

Lemma offline_step ev st st' :
  is_open_event ev = false ->
  step ev st = Some st' ->
  _socket st = None /\ transmitted st = [] ->
  _socket st' = None /\ transmitted st' = [].
Proof.
  intros Hev Hstep [Hs Ht].
  assert (Hkeep : _socket st' = _socket st -> transmitted st' = transmitted st ->
                  _socket st' = None /\ transmitted st' = [])
    by (intros -> ->; now split).
  destruct ev; try discriminate Hev; simpl in Hstep.
  - injection Hstep as <-.
    apply Hkeep; [apply (frame_socketCreate _socket)
                 |apply (frame_socketCreate transmitted)]; reflexivity.
  - injection Hstep as <-.
    apply Hkeep; [apply (frame_socketClose _socket)
                 |apply (frame_socketClose transmitted)]; reflexivity.
  - injection Hstep as <-. unfold send.
    destruct (negb (truthy topic0) || _); simpl; [now split|].
    destruct (offline_socketSend (publishMessage message topic0 silent0) st Hs)
      as [-> ->]. now split.
  - injection Hstep as <-.
    destruct (offline_socketSend (subscribeMessage topic0) st Hs) as [-> ->].
    now split.
  - injection Hstep as <-. now split.
  - injection Hstep as <-.
    apply Hkeep; [apply (frame_socketCreate _socket)
                 |apply (frame_socketCreate transmitted)]; reflexivity.
  - destruct (timers st) as [|n]; [discriminate|].
    injection Hstep as <-.
    apply Hkeep; [rewrite (frame_socketCreate _socket)
                 |rewrite (frame_socketCreate transmitted)]; reflexivity.
  - destruct (sockets st !! i) as [s|]; [|discriminate].
    destruct (WebSocket.readyState s =? WebSocket.CLOSED)%Z; [discriminate|].
    injection Hstep as <-.
    apply Hkeep; [rewrite (frame_onclose _socket)
                 |rewrite (frame_onclose transmitted)]; reflexivity.
  - destruct (sockets st !! i) as [s|]; [|discriminate].
    destruct (_ || _)%bool; [|discriminate].
    injection Hstep as <-. unfold _socketReceive.
    destruct (JSON_parse data) as [[|m]|]; try (simpl; now split). simpl.
    destruct (offline_socketSend (acknowledgeMessage (topic m)) st Hs)
      as [Hs1 Ht1].
    destruct (connected _); simpl; rewrite Hs1, Ht1; now split.
  - destruct (sockets st !! i) as [s|]; [|discriminate].
    destruct (WebSocket.readyState s =? WebSocket.CLOSED)%Z; [discriminate|].
    injection Hstep as <-. now split.
Qed.

(** X9 — before the first open event.  As long as no socket has fired its
    open event the transport has no active socket, however many connection
    attempts were started, failed and retried: [readyState] is -1, all four
    status getters answer false (the pending attempt does not show as
    [connecting]), and nothing has been transmitted. *)
Theorem offline_until_first_open
    (opts : ISocketTransportOptions) (st0 st : SocketTransport)
    (evs : list Event) :
  constructor opts = Constructed st0 ->
  run evs st0 = Some st ->
  forallb (fun ev => negb (is_open_event ev)) evs = true ->
  _socket st = None /\ readyState st = (-1)%Z /\
  connecting st = false /\ connected st = false /\
  closing st = false /\ closed st = false /\
  transmitted st = [].
Proof.
  intros Hc Hrun Hevs.
  assert (H0 : _socket st0 = None /\ transmitted st0 = []).
  { unfold constructor in Hc.
    destruct (negb (truthy (url opts)) || _); [discriminate|].
    destruct (url opts); try discriminate.
    injection Hc as <-. now split. }
  clear Hc.
  assert (Hst : _socket st = None /\ transmitted st = []).
  { revert st0 Hrun H0.
    induction evs as [|ev evs IH]; intros st0 Hrun H0; simpl in *.
    - now injection Hrun as <-.
    - apply andb_prop in Hevs as [Hev Hevs].
      destruct (step ev st0) as [st1|] eqn:Hstep; [|discriminate].
      apply (IH Hevs st1 Hrun).
      apply (offline_step ev st0 st1); [|exact Hstep|exact H0].
      now destruct (is_open_event ev). }
  destruct Hst as [Hs Ht].
  unfold connecting, connected, closing, closed, readyState.
  rewrite Hs. repeat split. exact Ht.
Qed.

End Transmission.

(** ** Connection cycles *)
Section Cycles.

Context `{Platform}.

Lemma run_app evs1 evs2 :
  forall st, run (evs1 ++ evs2) st =
               match run evs1 st with
               | Some st1 => run evs2 st1
               | None => None
               end.
Proof.
  induction evs1 as [|ev evs1 IH]; intros st; simpl; [reflexivity|].
  destruct (step ev st); [apply IH|reflexivity].
Qed.

Lemma silence_twice (s : WebSocket.t) :
  WebSocket.close
    (WebSocket.set_onclose NoopOnClose
       (WebSocket.close (WebSocket.set_onclose NoopOnClose s))) =
  WebSocket.close (WebSocket.set_onclose NoopOnClose s).
Proof.
  unfold WebSocket.close; simpl.
  destruct (WebSocket.readyState s =? WebSocket.CLOSING)%Z eqn:E2; simpl.
  - now rewrite E2.
  - destruct (WebSocket.readyState s =? WebSocket.CLOSED)%Z eqn:E3; simpl.
    + now rewrite E2, E3.
    + reflexivity.
Qed.

(** X10 — calling [open] or [close] again.  A second [open] right after
    the first changes nothing, and so does a second [close]: at most one
    socket is constructed, and a socket already silenced and closing is
    left as it is. *)
Theorem open_and_close_are_idempotent (st : SocketTransport) :
  open (open st) = open st /\ close (close st) = close st.
Proof.
  split.
  - unfold open, _socketCreate.
    destruct (_nextSocket st) as [p|] eqn:Hp; simpl; [now rewrite Hp|reflexivity].
  - unfold close, _socketClose.
    destruct (_socket st) as [a|] eqn:Ha; simpl; rewrite Ha; [|reflexivity].
    rewrite list_alter_alter_eq.
    unfold set_sockets; simpl. f_equal.
    apply list_alter_ext; [|reflexivity].
    intros s _. apply silence_twice.
Qed.

(** X11 — [close] does not switch the transport off.  After [close] on an
    open connection with nothing pending, the next [send] finds no open
    connection: its envelope is queued behind what was queued, nothing is
    transmitted, and a new socket is constructed as the pending one. *)
Theorem send_after_close_redials
    (st : SocketTransport) (a : nat) (message t : string) (sl : JSValue) :
  active_open st a ->
  _nextSocket st = None ->
  t <> "" ->
  let st' := snd (send message (JSString t) sl (close st)) in
  fst (send message (JSString t) sl (close st)) = Normal /\
  _queue st' = _queue st ++ [publishMessage message (JSString t) sl] /\
  transmitted st' = transmitted st /\
  _nextSocket st' = Some (length (sockets st)) /\
  length (sockets st') = S (length (sockets st)).
Proof.
  intros (Ha & s & Hs & Hr) Hn Ht st'. subst st'.
  unfold send; simpl.
  destruct (String.eqb_spec t ""); [contradiction|]. simpl.
  split; [reflexivity|].
  assert (Hc : connected (close st) = false).
  { unfold connected, readyState, close, _socketClose. rewrite Ha; simpl.
    rewrite Ha, list_lookup_alter_eq, Hs; simpl.
    unfold WebSocket.close; simpl. rewrite Hr. reflexivity. }
  rewrite (_socketSend_disconnected _ _ Hc).
  unfold _socketCreate, _setToQueue, close, _socketClose. rewrite Ha; simpl.
  rewrite Hn; simpl. repeat split.
  - now rewrite length_alter.
  - rewrite length_app, length_alter; simpl. lia.
Qed.

(** X19 — a message that arrives after [close].  The active connection
    is open and nothing is pending when [close] is called.  A message that
    is still delivered on the closing socket and parses to a value other
    than null is acknowledged like any other: the connection is no longer
    open, so the acknowledgement is queued and a new socket is constructed
    as the pending one.  No listener is called. *)
Theorem message_after_close_redials
    (st : SocketTransport) (a : nat) (data : string) (m : ISocketMessage) :
  active_open st a ->
  _nextSocket st = None ->
  JSON_parse data = Some (ParsedMessage m) ->
  exists st',
    step (SocketMessage a data) (close st) = Some st' /\
    _queue st' = _queue st ++ [acknowledgeMessage (topic m)] /\
    transmitted st' = transmitted st /\
    delivered st' = delivered st /\
    _nextSocket st' = Some (length (sockets st)) /\
    attempts st' = S (attempts (close st)).
Proof.
  intros (Ha & s & Hs & Hr) Hn Hp.
  assert (Hsa : sockets (close st) !! a =
                  Some (WebSocket.set_readyState WebSocket.CLOSING
                          (WebSocket.set_onclose NoopOnClose s))).
  { unfold close, _socketClose. rewrite Ha; simpl.
    rewrite list_lookup_alter_eq, Hs; simpl.
    unfold WebSocket.close; simpl. now rewrite Hr. }
  assert (Hc : connected (close st) = false).
  { unfold connected, readyState.
    replace (_socket (close st)) with (Some a)
      by (unfold close, _socketClose; now rewrite Ha).
    now rewrite Hsa. }
  assert (Hlen : length (sockets (close st)) = length (sockets st))
    by (unfold close, _socketClose; rewrite Ha; apply length_alter).
  assert (Hfr : _nextSocket (close st) = None /\ _queue (close st) = _queue st /\
                transmitted (close st) = transmitted st /\
                delivered (close st) = delivered st /\
                timers (close st) = timers st)
    by (unfold close, _socketClose; rewrite Ha; now repeat split).
  destruct Hfr as (Hn' & Hq & Ht & Hd & Htm).
  eexists. split.
  { simpl. rewrite Hsa. simpl. reflexivity. }
  unfold _socketReceive. rewrite Hp. simpl.
  rewrite connected_socketSend, Hc.
  rewrite (_socketSend_disconnected _ _ Hc).
  unfold _socketCreate, _setToQueue; simpl. rewrite Hn'; simpl.
  unfold attempts; simpl.
  rewrite Hq, Ht, Hd, Hlen, length_app; simpl.
  repeat split; lia.
Qed.

Lemma queued_requests reqs :
  forall (st : SocketTransport) (p : nat),
    forallb is_request reqs = true ->
    connected st = false ->
    _nextSocket st = Some p ->
    run reqs st = Some (set_queue (_queue st ++ flat_map requested reqs) st).
Proof.
  induction reqs as [|ev reqs IH]; intros st p Hreqs Hc Hp; simpl.
  - rewrite app_nil_r. now destruct st.
  - simpl in Hreqs. apply andb_prop in Hreqs as [Hev Hreqs].
    assert (Hsend : forall m,
              _socketSend m st = set_queue (_queue st ++ [m]) st).
    { intros m. rewrite (_socketSend_disconnected m st Hc).
      now apply (_socketCreate_pending _ p). }
    assert (Hnext : forall m,
              run reqs (set_queue (_queue st ++ [m]) st) =
                Some (set_queue (_queue st ++ m :: flat_map requested reqs) st)).
    { intros m. rewrite (IH (set_queue (_queue st ++ [m]) st) p Hreqs Hc Hp).
      destruct st; simpl. now rewrite <- app_assoc. }
    destruct ev; try discriminate Hev; simpl.
    + unfold send.
      destruct (negb (truthy topic0) || _); simpl.
      * now apply (IH st p).
      * rewrite Hsend. apply Hnext.
    + rewrite Hsend. apply Hnext.
Qed.

(** X12 — requests made before the connection is up.  A constructed
    transport is opened and, while the first socket is still connecting,
    any number of [send] and [subscribe] calls are made.  When the socket
    opens, the envelopes of these calls go out on it in call order (a [send]
    that threw contributes none), followed by one subscribe envelope per
    configured topic; the queue is left empty and the socket is the active,
    open one. *)
Theorem offline_requests_flush_in_order
    (opts : ISocketTransportOptions) (st0 : SocketTransport)
    (reqs : list Event) :
  constructor opts = Constructed st0 ->
  forallb is_request reqs = true ->
  exists st',
    run (CallOpen :: reqs ++ [SocketOpened 0]) st0 = Some st' /\
    transmitted st' =
      map (fun m => (0, JSON_stringify m))
        (flat_map requested reqs
           ++ map (fun t => subscribeMessage (JSString t))
                (default [] (subscriptions opts))) /\
    _queue st' = [] /\
    active_open st' 0 /\
    _nextSocket st' = None.
Proof.
  intros Hc Hreqs.
  unfold constructor in Hc.
  destruct (negb (truthy (url opts)) || _); [discriminate|].
  destruct (url opts) as [| | | |u|]; try discriminate.
  injection Hc as <-.
  set (st0 := {| _protocol := protocol opts; _version := version opts;
                 _url := u; opts_subscriptions := subscriptions opts;
                 _socket := None; _nextSocket := None; _queue := [];
                 _events := []; _subscriptions := default [] (subscriptions opts);
                 sockets := []; timers := 0; transmitted := [];
                 delivered := [] |}).
  set (c := WebSocket.create
              (getWebSocketUrl u (protocol opts) (version opts))).
  assert (Hq : run reqs (open st0) =
                 Some (set_queue (flat_map requested reqs) (open st0)))
    by (apply (queued_requests reqs (open st0) 0 Hreqs); reflexivity).
  destruct (promote_effects (set_queue (flat_map requested reqs) (open st0)) 0 c)
    as (st' & Hstep & _ & _ & Ha & Hn & Hs & Ht & Hqueue & _);
    try reflexivity; try discriminate.
  exists st'. split.
  { change (run (CallOpen :: reqs ++ [SocketOpened 0]) st0)
      with (run (reqs ++ [SocketOpened 0]) (open st0)).
    rewrite run_app, Hq. cbn [run]. now rewrite Hstep. }
  split; [exact Ht|]. split; [exact Hqueue|]. split; [|exact Hn].
  split; [exact Ha|]. eexists. split; [exact Hs|reflexivity].
Qed.

(** X13 — recovery from a lost connection.  The active connection is
    open, carries the retry handler, and nothing is pending.  When it is
    closed from outside, the retry timer is set; when the timer fires, a new
    socket is constructed; when that socket opens, it becomes the active
    one, and what was queued, followed by one subscribe envelope per
    subscription, goes out on it.  No timer is left over. *)
Theorem reconnects_after_loss
    (st : SocketTransport) (a : nat) (s : WebSocket.t) :
  _socket st = Some a ->
  sockets st !! a = Some s ->
  WebSocket.readyState s = WebSocket.OPEN ->
  WebSocket.onclose s = RetryOnClose ->
  _nextSocket st = None ->
  exists st',
    run [SocketClosed a; TimerFired; SocketOpened (length (sockets st))] st
      = Some st' /\
    active_open st' (length (sockets st)) /\
    _nextSocket st' = None /\
    timers st' = timers st /\
    transmitted st' =
      transmitted st
        ++ map (fun m => (length (sockets st), JSON_stringify m))
             (_queue st
                ++ map (fun t => subscribeMessage (JSString t))
                     (_subscriptions st)) /\
    _queue st' = [] /\
    _subscriptions st' = configured st.
Proof.
  intros Ha Hs Hr Ho Hn.
  pose proof (lookup_lt_Some _ _ _ Hs) as Hlt.
  set (p := length (sockets st)).
  set (closed_s := WebSocket.set_readyState WebSocket.CLOSED s).
  set (c := WebSocket.create
              (getWebSocketUrl (_url st) (_protocol st) (_version st))).
  set (st2 := set_nextSocket (Some p)
                (set_sockets (<[a := closed_s]> (sockets st) ++ [c]) st)).
  assert (H12 : run [SocketClosed a; TimerFired] st = Some st2).
  { cbn [run]. simpl. rewrite Hs, Hr, Ho. simpl.
    unfold _socketCreate; simpl. rewrite length_insert.
    subst st2 p c closed_s. now destruct st. }
  destruct (promote_effects st2 p c)
    as (st' & Hstep & _ & _ & Ha' & Hn' & Hs' & Ht & Hq & Hsub & Htm).
  { reflexivity. }
  { subst st2; simpl. apply list_lookup_middle. now rewrite length_insert. }
  { reflexivity. }
  { subst st2; simpl. rewrite Ha. intros E. injection E as E. subst p. lia. }
  exists st'. split.
  { change [SocketClosed a; TimerFired; SocketOpened p]
      with ([SocketClosed a; TimerFired] ++ [SocketOpened p]).
    rewrite run_app, H12. cbn [run]. now rewrite Hstep. }
  split; [|repeat split; assumption].
  split; [exact Ha'|]. eexists. split; [exact Hs'|reflexivity].
Qed.

(** X14 — retrying has no bound.  The pending socket is the one
    constructed last.  If it fails to connect, the retry timer constructs
    the next socket, and so on for any number of failures in a row: after
    [n] failures [n] more sockets have been constructed, the last of them is
    pending, no timer is left over, and the queue, the active socket and
    the frames sent are as they were. *)
Theorem retries_without_bound (n : nat) :
  forall (st : SocketTransport) (p : nat) (s : WebSocket.t),
    _nextSocket st = Some p ->
    sockets st !! p = Some s ->
    WebSocket.readyState s = WebSocket.CONNECTING ->
    WebSocket.onclose s = RetryOnClose ->
    S p = length (sockets st) ->
    exists st',
      run (failures p n) st = Some st' /\
      length (sockets st') = length (sockets st) + n /\
      _nextSocket st' = Some (p + n) /\
      timers st' = timers st /\
      _queue st' = _queue st /\
      transmitted st' = transmitted st /\
      _socket st' = _socket st.
Proof.
  induction n as [|n IH]; intros st p s Hp Hs Hr Ho Hlen.
  - exists st. simpl. rewrite !Nat.add_0_r. repeat split. exact Hp.
  - set (closed_s := WebSocket.set_readyState WebSocket.CLOSED s).
    set (c := WebSocket.create
                (getWebSocketUrl (_url st) (_protocol st) (_version st))).
    set (st2 := set_nextSocket (Some (S p))
                  (set_sockets (<[p := closed_s]> (sockets st) ++ [c]) st)).
    assert (H12 : run [SocketClosed p; TimerFired] st = Some st2).
    { cbn [run]. simpl. rewrite Hs, Hr, Ho. simpl.
      unfold _socketCreate; simpl. rewrite length_insert, <- Hlen.
      subst st2 c closed_s. now destruct st. }
    destruct (IH st2 (S p) c) as (st' & Hrun & Hl & Hn & Ht & Hq & Htx & Ha).
    { reflexivity. }
    { subst st2; simpl. apply list_lookup_middle.
      now rewrite length_insert. }
    { reflexivity. }
    { reflexivity. }
    { subst st2; simpl. rewrite length_app, length_insert; simpl. lia. }
    exists st'. split.
    { change (failures p (S n))
        with ([SocketClosed p; TimerFired] ++ failures (S p) n).
      now rewrite run_app, H12. }
    rewrite Hl, Hn, Ht, Hq, Htx, Ha. subst st2; simpl.
    rewrite length_app, length_insert; simpl.
    repeat split; try lia. f_equal. lia.
Qed.

End Cycles.

(** ** The connection URL *)
Section Url.

Context `{Platform}.

Local Open Scope string_scope.

Lemma split_without (sep : ascii) (s : string) :
  occurs sep s = false -> split sep s = [s].
Proof.
  induction s as [|c r IH]; simpl; [reflexivity|].
  intros Ho. apply orb_false_elim in Ho as [Hc Hr].
  rewrite Hc, (IH Hr). reflexivity.
Qed.

Lemma split_at_first (sep : ascii) (pre r : string) :
  occurs sep pre = false ->
  split sep (pre ++ String sep r) = pre :: split sep r.
Proof.
  induction pre as [|c pre IH]; simpl.
  - intros _. now rewrite Ascii.eqb_refl.
  - intros Ho. apply orb_false_elim in Ho as [Hc Hr].
    rewrite Hc, (IH Hr). reflexivity.
Qed.

Lemma split_not_nil (sep : ascii) (s : string) : split sep s <> [].
Proof.
  induction s as [|c r IH]; simpl; [discriminate|].
  destruct (Ascii.eqb c sep); [discriminate|].
  destruct (split sep r); [contradiction|discriminate].
Qed.

(** What [getWebSocketUrl] keeps of a url already rewritten: the text
    before the first question mark and the text between the first and the
    second. *)
Lemma split_parts (pre q r : string) :
  occurs "?" pre = false -> occurs "?" q = false ->
  split "?" pre = [pre] /\
  split "?" (pre ++ "?" ++ q) = [pre; q] /\
  exists l, split "?" (pre ++ "?" ++ q ++ "?" ++ r) = pre :: q :: l.
Proof.
  intros Hpre Hq. split; [now apply split_without|]. split.
  - change (pre ++ "?" ++ q) with (pre ++ String "?" q).
    now rewrite split_at_first, split_without.
  - change (pre ++ "?" ++ q ++ "?" ++ r)
      with (pre ++ String "?" (q ++ String "?" r)).
    rewrite split_at_first by exact Hpre.
    rewrite split_at_first by exact Hq. eauto.
Qed.

Lemma substring_all (s : string) : String.substring 0 (String.length s) s = s.
Proof. induction s as [|c r IH]; simpl; [reflexivity|now rewrite IH]. Qed.

Lemma substring_after (p x : string) :
  String.substring (String.length p)
    (String.length (p ++ x) - String.length p) (p ++ x) = x.
Proof.
  induction p as [|c p IH]; simpl; [|exact IH].
  now rewrite Nat.sub_0_r, substring_all.
Qed.

Lemma after_https (x : string) :
  String.substring 5 (String.length ("https" ++ x) - 5) ("https" ++ x) = x.
Proof. exact (substring_after "https" x). Qed.

Lemma after_http (x : string) :
  String.substring 4 (String.length ("http" ++ x) - 4) ("http" ++ x) = x.
Proof. exact (substring_after "http" x). Qed.

Lemma prefix_self (p w : string) : String.prefix p (p ++ w) = true.
Proof.
  induction p as [|c p IH]; simpl; [now destruct w|].
  destruct (ascii_dec c c); [exact IH|contradiction].
Qed.

Lemma prefix_shorter (p1 p2 w : string) :
  String.prefix (p1 ++ p2) w = true -> String.prefix p1 w = true.
Proof.
  revert w. induction p1 as [|a p1 IH]; intros w Hw; [now destruct w|].
  destruct w as [|b w]; simpl in *; [discriminate|].
  destruct (ascii_dec a b); [now apply IH|discriminate].
Qed.

Lemma prefix_before_query (pat base x : string) :
  occurs "?" pat = false ->
  String.prefix pat base = false ->
  String.prefix pat (base ++ String "?" x) = false.
Proof.
  revert base. induction pat as [|a pat IH]; intros base Ho Hp.
  - now destruct base.
  - simpl in Ho. apply orb_false_elim in Ho as [Ha Ho].
    destruct base as [|b base]; simpl in *.
    + destruct (ascii_dec a "?"%char) as [->|]; [discriminate|reflexivity].
    + destruct (ascii_dec a b); [now apply IH|reflexivity].
Qed.

(** X15 — a secure web url.  For a url that starts with "https" the
    scheme becomes "wss" and the rest is kept up to the first question
    mark; the query string handed to the platform is empty when there is no
    question mark, and otherwise the text between the first and the second
    question mark: whatever follows a second question mark is dropped. *)
Theorem url_https_becomes_wss
    (base q r protocol : string) (version : Z) :
  occurs "?" base = false ->
  occurs "?" q = false ->
  getWebSocketUrl ("https" ++ base) protocol version =
    "wss" ++ base ++ "?" ++ appendParams "" protocol version /\
  getWebSocketUrl ("https" ++ base ++ "?" ++ q) protocol version =
    "wss" ++ base ++ "?" ++ appendParams q protocol version /\
  getWebSocketUrl ("https" ++ base ++ "?" ++ q ++ "?" ++ r) protocol version =
    "wss" ++ base ++ "?" ++ appendParams q protocol version.
Proof.
  intros Hb Hq.
  assert (Hpre : occurs "?" ("wss" ++ base) = false) by exact Hb.
  destruct (split_parts ("wss" ++ base) q r Hpre Hq) as (E0 & E1 & l & E2).
  unfold getWebSocketUrl.
  repeat split.
  - rewrite prefix_self, after_https, E0. reflexivity.
  - rewrite prefix_self, after_https.
    change ("wss" ++ base ++ "?" ++ q) with (("wss" ++ base) ++ "?" ++ q).
    rewrite E1. reflexivity.
  - rewrite prefix_self, after_https.
    change ("wss" ++ base ++ "?" ++ q ++ "?" ++ r)
      with (("wss" ++ base) ++ "?" ++ q ++ "?" ++ r).
    rewrite E2. reflexivity.
Qed.

(** X16 — a plain web url.  For a url that starts with "http" but not
    with "https" the scheme becomes "ws"; the rest is treated as above. *)
Theorem url_http_becomes_ws
    (base q r protocol : string) (version : Z) :
  String.prefix "s" base = false ->
  occurs "?" base = false ->
  occurs "?" q = false ->
  getWebSocketUrl ("http" ++ base) protocol version =
    "ws" ++ base ++ "?" ++ appendParams "" protocol version /\
  getWebSocketUrl ("http" ++ base ++ "?" ++ q) protocol version =
    "ws" ++ base ++ "?" ++ appendParams q protocol version /\
  getWebSocketUrl ("http" ++ base ++ "?" ++ q ++ "?" ++ r) protocol version =
    "ws" ++ base ++ "?" ++ appendParams q protocol version.
Proof.
  intros Hs Hb Hq.
  assert (Hpre : occurs "?" ("ws" ++ base) = false) by exact Hb.
  destruct (split_parts ("ws" ++ base) q r Hpre Hq) as (E0 & E1 & l & E2).
  assert (Hs' : forall x, String.prefix "s" (base ++ String "?" x) = false)
    by (intros x; now apply prefix_before_query).
  assert (Hno : forall x, String.prefix "s" x = false ->
                  String.prefix "https" ("http" ++ x) = false).
  { intros x Hx. simpl. exact Hx. }
  unfold getWebSocketUrl.
  repeat split.
  - rewrite (Hno _ Hs), prefix_self, after_http, E0. reflexivity.
  - change (base ++ "?" ++ q) with (base ++ String "?" q).
    rewrite (Hno _ (Hs' q)), prefix_self, after_http.
    change ("ws" ++ base ++ String "?" q) with (("ws" ++ base) ++ "?" ++ q).
    rewrite E1. reflexivity.
  - change (base ++ "?" ++ q ++ "?" ++ r)
      with (base ++ String "?" (q ++ "?" ++ r)).
    rewrite (Hno _ (Hs' _)), prefix_self, after_http.
    change ("ws" ++ base ++ String "?" (q ++ "?" ++ r))
      with (("ws" ++ base) ++ "?" ++ q ++ "?" ++ r).
    rewrite E2. reflexivity.
Qed.

(** X17 — any other url.  A url that does not start with "http" keeps its
    scheme, whether it is a socket url already or not a url at all; the
    query string is treated as above. *)
Theorem url_other_scheme_is_kept
    (base q r protocol : string) (version : Z) :
  String.prefix "http" base = false ->
  occurs "?" base = false ->
  occurs "?" q = false ->
  getWebSocketUrl base protocol version =
    base ++ "?" ++ appendParams "" protocol version /\
  getWebSocketUrl (base ++ "?" ++ q) protocol version =
    base ++ "?" ++ appendParams q protocol version /\
  getWebSocketUrl (base ++ "?" ++ q ++ "?" ++ r) protocol version =
    base ++ "?" ++ appendParams q protocol version.
Proof.
  intros Hs Hb Hq.
  destruct (split_parts base q r Hb Hq) as (E0 & E1 & l & E2).
  assert (Hno : forall w, String.prefix "http" w = false ->
                  String.prefix "https" w = false).
  { intros w Hw. destruct (String.prefix "https" w) eqn:E; [|reflexivity].
    apply (prefix_shorter "http" "s") in E. congruence. }
  assert (Hs' : forall x, String.prefix "http" (base ++ String "?" x) = false)
    by (intros x; now apply prefix_before_query).
  unfold getWebSocketUrl.
  repeat split.
  - rewrite (Hno _ Hs), Hs, E0. reflexivity.
  - change (base ++ "?" ++ q) with (base ++ String "?" q) in *.
    rewrite (Hno _ (Hs' q)), Hs', E1. reflexivity.
  - change (base ++ "?" ++ q ++ "?" ++ r)
      with (base ++ String "?" (q ++ "?" ++ r)) in *.
    rewrite (Hno _ (Hs' _)), Hs', E2. reflexivity.
Qed.

End Url.

(** ** Further runs of the concrete transport *)
Section MoreScenarios.

#[local] Existing Instance Scenario.platform.
Import Scenario.

Lemma registrations_accumulate_witness :
  let evs := [CallOn "message" 7; CallOpen; CallOn "error" 8] in
  run evs fresh = Some (state_after evs) /\
  _events (state_after evs) = _events fresh ++ registrations evs.
Proof.
  intros evs.
  assert (Hrun : run evs fresh = Some (state_after evs))
    by (vm_compute; reflexivity).
  split; [exact Hrun|].
  exact (registrations_accumulate evs fresh (state_after evs) Hrun).
Defined.


Lemma deliveries_are_registered_witness :
  let evs := [CallOn "message" 7; CallOn "error" 8; CallOpen; SocketOpened 0;
              SocketMessage 0 "pub:a:hello"; SocketError 0 "reset"] in
  constructor opts = Constructed fresh /\
  run evs fresh = Some (state_after evs) /\
  Forall (delivery_registered (_events (state_after evs)))
         (delivered (state_after evs)).
Proof.
  intros evs.
  assert (Hc : constructor opts = Constructed fresh) by reflexivity.
  assert (Hrun : run evs fresh = Some (state_after evs))
    by (vm_compute; reflexivity).
  split; [exact Hc|]. split; [exact Hrun|].
  exact (deliveries_are_registered opts fresh (state_after evs) evs Hc Hrun).
Defined.

Lemma slots_well_formed_witness :
  constructor opts = Constructed fresh /\
  run [CallOpen; SocketOpened 0; NetOnline] fresh = Some redialling /\
  well_formed redialling.
Proof.
  assert (Hc : constructor opts = Constructed fresh) by reflexivity.
  assert (Hrun : run [CallOpen; SocketOpened 0; NetOnline] fresh = Some redialling)
    by (vm_compute; reflexivity).
  split; [exact Hc|]. split; [exact Hrun|].
  exact (slots_well_formed opts fresh redialling _ Hc Hrun).
Defined.

Lemma every_socket_dials_configured_url_witness :
  constructor opts = Constructed fresh /\
  run dropped fresh = Some (state_after dropped) /\
  Forall (fun s => WebSocket.url s =
                     getWebSocketUrl "https://relay.example" "wc" 1)
         (sockets (state_after dropped)).
Proof.
  assert (Hc : constructor opts = Constructed fresh) by reflexivity.
  assert (Hrun : run dropped fresh = Some (state_after dropped))
    by (vm_compute; reflexivity).
  split; [exact Hc|]. split; [exact Hrun|].
  exact (every_socket_dials_configured_url opts fresh (state_after dropped)
           dropped "https://relay.example" Hc Hrun eq_refl).
Defined.

Lemma readyState_range_witness :
  constructor opts = Constructed fresh /\
  run [CallOpen; SocketOpened 0] fresh = Some online /\
  (_socket online = None <-> readyState online = (-1)%Z) /\
  (-1 <= readyState online <= 3)%Z /\
  (connecting online || connected online || closing online || closed online
   = bool_decide (is_Some (_socket online))).
Proof.
  assert (Hc : constructor opts = Constructed fresh) by reflexivity.
  assert (Hrun : run [CallOpen; SocketOpened 0] fresh = Some online)
    by (vm_compute; reflexivity).
  split; [exact Hc|]. split; [exact Hrun|].
  exact (readyState_range opts fresh online _ Hc Hrun).
Defined.

Lemma frames_go_out_on_open_active_witness :
  let ev := CallSend "x" (JSString "a") JSUndefined in
  let st' := snd (send "x" (JSString "a") JSUndefined online) in
  step ev online = Some st' /\
  exists sent,
    transmitted st' = transmitted online ++ sent /\
    forall a frame, In (a, frame) sent -> active_open st' a.
Proof.
  intros ev st'.
  assert (Hstep : step ev online = Some st') by reflexivity.
  split; [exact Hstep|].
  exact (frames_go_out_on_open_active ev online st' Hstep).
Defined.

Lemma drain_on_open_connection_witness :
  active_open (set_queue [hello] online) 0 /\
  _pushQueue (set_queue [hello] online) =
    set_queue []
      (set_transmitted
         (transmitted online ++ [(0, JSON_stringify hello)])
         (set_queue [hello] online)).
Proof.
  assert (Ho : active_open (set_queue [hello] online) 0).
  { split; [reflexivity|]. eexists. split; vm_compute; reflexivity. }
  split; [exact Ho|].
  exact (drain_on_open_connection (set_queue [hello] online) 0 Ho).
Defined.

Lemma offline_until_first_open_witness :
  let evs := [CallOpen; CallSend "x" (JSString "a") JSUndefined;
              SocketClosed 0; TimerFired] in
  constructor opts = Constructed fresh /\
  run evs fresh = Some (state_after evs) /\
  _socket (state_after evs) = None /\
  readyState (state_after evs) = (-1)%Z /\
  connecting (state_after evs) = false /\
  connected (state_after evs) = false /\
  closing (state_after evs) = false /\
  closed (state_after evs) = false /\
  transmitted (state_after evs) = [].
Proof.
  intros evs.
  assert (Hc : constructor opts = Constructed fresh) by reflexivity.
  assert (Hrun : run evs fresh = Some (state_after evs))
    by (vm_compute; reflexivity).
  split; [exact Hc|]. split; [exact Hrun|].
  exact (offline_until_first_open opts fresh (state_after evs) evs
           Hc Hrun eq_refl).
Defined.

Lemma send_after_close_redials_witness :
  active_open online 0 /\ _nextSocket online = None /\
  fst (send "x" (JSString "a") JSUndefined (close online)) = Normal /\
  _queue (snd (send "x" (JSString "a") JSUndefined (close online))) =
    _queue online ++ [publishMessage "x" (JSString "a") JSUndefined] /\
  transmitted (snd (send "x" (JSString "a") JSUndefined (close online))) =
    transmitted online /\
  _nextSocket (snd (send "x" (JSString "a") JSUndefined (close online))) =
    Some (length (sockets online)) /\
  length (sockets (snd (send "x" (JSString "a") JSUndefined (close online)))) =
    S (length (sockets online)).
Proof.
  assert (Ho : active_open online 0).
  { split; [reflexivity|]. eexists. split; vm_compute; reflexivity. }
  assert (Hn : _nextSocket online = None) by reflexivity.
  split; [exact Ho|]. split; [exact Hn|].
  apply (send_after_close_redials online 0 "x" "a" JSUndefined Ho Hn).
  discriminate.
Defined.

Lemma offline_requests_flush_in_order_witness :
  constructor opts = Constructed fresh /\
  exists st',
    run (CallOpen :: early_requests ++ [SocketOpened 0]) fresh = Some st' /\
    transmitted st' =
      map (fun m => (0, JSON_stringify m))
        (flat_map requested early_requests
           ++ map (fun t => subscribeMessage (JSString t)) ["a"; "b"]) /\
    _queue st' = [] /\ active_open st' 0 /\ _nextSocket st' = None.
Proof.
  assert (Hc : constructor opts = Constructed fresh) by reflexivity.
  split; [exact Hc|].
  exact (offline_requests_flush_in_order opts fresh early_requests Hc eq_refl).
Defined.

Lemma reconnects_after_loss_witness :
  _socket online = Some 0 /\ _nextSocket online = None /\
  exists st',
    run [SocketClosed 0; TimerFired; SocketOpened 1] online = Some st' /\
    active_open st' 1 /\ _nextSocket st' = None /\
    timers st' = timers online /\
    transmitted st' =
      transmitted online
        ++ map (fun m => (1, JSON_stringify m))
             (_queue online
                ++ map (fun t => subscribeMessage (JSString t))
                     (_subscriptions online)) /\
    _queue st' = [] /\ _subscriptions st' = configured online.
Proof.
  split; [reflexivity|]. split; [reflexivity|].
  apply (reconnects_after_loss online 0
           (WebSocket.set_readyState WebSocket.OPEN
              (WebSocket.create
                 (getWebSocketUrl "https://relay.example" "wc" 1)))).
  - reflexivity.
  - vm_compute; reflexivity.
  - reflexivity.
  - reflexivity.
  - reflexivity.
Defined.

Lemma retries_without_bound_witness :
  _nextSocket dialling = Some 0 /\
  exists st',
    run (failures 0 3) dialling = Some st' /\
    length (sockets st') = length (sockets dialling) + 3 /\
    _nextSocket st' = Some (0 + 3) /\
    timers st' = timers dialling /\
    _queue st' = _queue dialling /\
    transmitted st' = transmitted dialling /\
    _socket st' = _socket dialling.
Proof.
  split; [reflexivity|].
  apply (retries_without_bound 3 dialling 0
           (WebSocket.create (getWebSocketUrl "https://relay.example" "wc" 1))).
  - reflexivity.
  - vm_compute; reflexivity.
  - reflexivity.
  - reflexivity.
  - reflexivity.
Defined.

Lemma url_https_becomes_wss_witness :
  (getWebSocketUrl "https://relay.example/hub" "wc" 1 =
     "wss://relay.example/hub?protocol=wc" /\
   getWebSocketUrl "https://relay.example/hub?k=v" "wc" 1 =
     "wss://relay.example/hub?k=vprotocol=wc" /\
   getWebSocketUrl "https://relay.example/hub?k=v?rest" "wc" 1 =
     "wss://relay.example/hub?k=vprotocol=wc")%string.
Proof.
  pose proof (url_https_becomes_wss "://relay.example/hub" "k=v" "rest" "wc" 1 eq_refl eq_refl) as Hw.
  vm_compute in Hw |- *. exact Hw.
Defined.

Lemma url_http_becomes_ws_witness :
  (getWebSocketUrl "http://localhost:5555" "wc" 1 =
     "ws://localhost:5555?protocol=wc" /\
   getWebSocketUrl "http://localhost:5555?k=v" "wc" 1 =
     "ws://localhost:5555?k=vprotocol=wc" /\
   getWebSocketUrl "http://localhost:5555?k=v?rest" "wc" 1 =
     "ws://localhost:5555?k=vprotocol=wc")%string.
Proof.
  pose proof (url_http_becomes_ws "://localhost:5555" "k=v" "rest" "wc" 1 eq_refl eq_refl eq_refl) as Hw.
  vm_compute in Hw |- *. exact Hw.
Defined.

Lemma url_other_scheme_is_kept_witness :
  (getWebSocketUrl "wss://relay.example" "wc" 1 =
     "wss://relay.example?protocol=wc" /\
   getWebSocketUrl "wss://relay.example?k=v" "wc" 1 =
     "wss://relay.example?k=vprotocol=wc" /\
   getWebSocketUrl "wss://relay.example?k=v?rest" "wc" 1 =
     "wss://relay.example?k=vprotocol=wc")%string.
Proof.
  pose proof (url_other_scheme_is_kept "wss://relay.example" "k=v" "rest" "wc" 1 eq_refl eq_refl eq_refl) as Hw.
  vm_compute in Hw |- *. exact Hw.
Defined.

Lemma receive_acknowledges_parsed_value_witness :
  JSON_parse "pub:a:hello" = Some (ParsedMessage hello) /\
  JSON_parse "junk" = None /\
  fst (_socketReceive "pub:a:hello" online) = Normal /\
  ((exists a, active_open online a /\
      transmitted (snd (_socketReceive "pub:a:hello" online)) =
        transmitted online
          ++ [(a, JSON_stringify
                    {| topic := JSString "a"; type := "ack"; payload := "";
                       silent := true |})] /\
      _queue (snd (_socketReceive "pub:a:hello" online)) = _queue online)
   \/
   ((forall a, ~ active_open online a) /\
      transmitted (snd (_socketReceive "pub:a:hello" online)) =
        transmitted online /\
      _queue (snd (_socketReceive "pub:a:hello" online)) =
        _queue online
          ++ [{| topic := JSString "a"; type := "ack"; payload := "";
                 silent := true |}])) /\
  _socketReceive "junk" online = (Normal, online).
Proof.
  assert (Hp : JSON_parse "pub:a:hello" = Some (ParsedMessage hello))
    by reflexivity.
  assert (Hj : JSON_parse "junk" = None) by reflexivity.
  split; [exact Hp|]. split; [exact Hj|].
  destruct (proj1 (receive_acknowledges_parsed_value "pub:a:hello" online)
              hello Hp) as [Hn Hack].
  split; [exact Hn|]. split; [exact Hack|].
  exact (proj2 (receive_acknowledges_parsed_value "junk" online) Hj).
Defined.

Lemma message_after_close_redials_witness :
  active_open online 0 /\ _nextSocket online = None /\
  JSON_parse "pub:a:hello" = Some (ParsedMessage hello) /\
  exists st',
    step (SocketMessage 0 "pub:a:hello") (close online) = Some st' /\
    _queue st' = _queue online ++ [acknowledgeMessage (JSString "a")] /\
    transmitted st' = transmitted online /\
    delivered st' = delivered online /\
    _nextSocket st' = Some (length (sockets online)) /\
    attempts st' = S (attempts (close online)).
Proof.
  assert (Ho : active_open online 0).
  { split; [reflexivity|]. eexists. split; vm_compute; reflexivity. }
  assert (Hn : _nextSocket online = None) by reflexivity.
  assert (Hp : JSON_parse "pub:a:hello" = Some (ParsedMessage hello))
    by reflexivity.
  split; [exact Ho|]. split; [exact Hn|]. split; [exact Hp|].
  exact (message_after_close_redials online 0 "pub:a:hello" hello Ho Hn Hp).
Defined.

End MoreScenarios.
